(** * BBC Micro keyboard firmware: scan, resolve and debounce

    A shallow embedding of [code.py], the CircuitPython script that reads
    the keyboard matrix of a BBC Micro and presents it as a USB HID
    keyboard.  Every definition below is a transcription of the function of
    the same name; global objects of the script ([bbc_keyboard],
    [input_processor], the pins) become fields of an explicit state that is
    passed through the calls.

    Conventions of the embedding:
    - a [Keycode] is the integer the HID library assigns to the name;
    - a Python [float] is a value of an arithmetic given by the class
      [Float]: its additions, subtractions and divisions round as the port
      of the interpreter rounds them, and every statement holds for every
      such arithmetic; the value read from [time.monotonic()] by a call is
      an argument of that call;
    - the HID sink is the list of [press]/[release] calls it received;
    - [print] appends to a list of printed lines;
    - a Python [dict] is the list of its items in the order of the slots of
      its table, and the iterator of [dict.items()] is the one of
      CircuitPython, a cursor that walks the slots and makes no check of
      the size of the dict: [del] empties a slot and moves nothing. *)

From Stdlib Require Import ZArith QArith List Bool Lia PeanoNat Ascii.
From Stdlib Require Floats Uint63.
Import ListNotations.

Close Scope Q_scope.

Set Implicit Arguments.

(** ** Floats *)

(** The arithmetic of Python's [float]: the number a literal or an [int]
    stands for, the three operations the script uses, each with its
    rounding, and the comparison [<], of which only that it is strict is
    asked. *)
Class Float : Type := {
  float : Type;
  float_of_Q : Q -> float;
  fadd : float -> float -> float;
  fsub : float -> float -> float;
  fdiv : float -> float -> float;
  fltb : float -> float -> bool;
  fltb_irrefl : forall x : float, fltb x x = false
}.

(** IEEE 754 binary64, the arithmetic the closed evaluations below use.  A
    literal such as [0.15] is the float nearest to 15/100, which is what
    one division of the two integers, rounded once, gives. *)
Definition binary64_of_Z (z : Z) : PrimFloat.float :=
  match z with
  | Z0 => PrimFloat.of_uint63 (Uint63.of_Z 0)
  | Zpos p => PrimFloat.of_uint63 (Uint63.of_Z (Zpos p))
  | Zneg p => PrimFloat.opp (PrimFloat.of_uint63 (Uint63.of_Z (Zpos p)))
  end.

Lemma binary64_ltb_irrefl (x : PrimFloat.float) : PrimFloat.ltb x x = false.
Proof.
  rewrite FloatAxioms.ltb_spec. unfold SpecFloat.SFltb, SpecFloat.SFcompare.
  destruct (FloatOps.Prim2SF x) as [s|s| |s m e]; try reflexivity.
  - now destruct s.
  - destruct s; rewrite Z.compare_refl, Pos.compare_cont_refl; reflexivity.
Qed.

Definition binary64 : Float :=
  {| float := PrimFloat.float;
     float_of_Q := fun q => PrimFloat.div (binary64_of_Z (Qnum q))
                                          (binary64_of_Z (Zpos (Qden q)));
     fadd := PrimFloat.add;
     fsub := PrimFloat.sub;
     fdiv := PrimFloat.div;
     fltb := PrimFloat.ltb;
     fltb_irrefl := binary64_ltb_irrefl |}.

(** ** Key codes *)

(** The constants of [adafruit_hid.keycode.Keycode] used by the script:
    USB HID usage ids. *)
Module Keycode.
Local Open Scope Z_scope.
Definition A := 0x04.
Definition B := 0x05.
Definition C := 0x06.
Definition D := 0x07.
Definition E := 0x08.
Definition F := 0x09.
Definition G := 0x0A.
Definition H := 0x0B.
Definition I := 0x0C.
Definition J := 0x0D.
Definition K := 0x0E.
Definition L := 0x0F.
Definition M := 0x10.
Definition N := 0x11.
Definition O := 0x12.
Definition P := 0x13.
Definition Q := 0x14.
Definition R := 0x15.
Definition S := 0x16.
Definition T := 0x17.
Definition U := 0x18.
Definition V := 0x19.
Definition W := 0x1A.
Definition X := 0x1B.
Definition Y := 0x1C.
Definition Z := 0x1D.
Definition ONE := 0x1E.
Definition TWO := 0x1F.
Definition THREE := 0x20.
Definition FOUR := 0x21.
Definition FIVE := 0x22.
Definition SIX := 0x23.
Definition SEVEN := 0x24.
Definition EIGHT := 0x25.
Definition NINE := 0x26.
Definition ZERO := 0x27.
Definition RETURN := 0x28.
Definition ESCAPE := 0x29.
Definition BACKSPACE := 0x2A.
Definition TAB := 0x2B.
Definition SPACEBAR := 0x2C.
Definition MINUS := 0x2D.
Definition EQUALS := 0x2E.
Definition LEFT_BRACKET := 0x2F.
Definition RIGHT_BRACKET := 0x30.
Definition BACKSLASH := 0x31.
Definition POUND := 0x32.
Definition SEMICOLON := 0x33.
Definition QUOTE := 0x34.
Definition COMMA := 0x36.
Definition PERIOD := 0x37.
Definition FORWARD_SLASH := 0x38.
Definition CAPS_LOCK := 0x39.
Definition F1 := 0x3A.
Definition F2 := 0x3B.
Definition F3 := 0x3C.
Definition F4 := 0x3D.
Definition F5 := 0x3E.
Definition F6 := 0x3F.
Definition F7 := 0x40.
Definition F8 := 0x41.
Definition F9 := 0x42.
Definition F10 := 0x43.
Definition DELETE := 0x4C.
Definition RIGHT_ARROW := 0x4F.
Definition LEFT_ARROW := 0x50.
Definition DOWN_ARROW := 0x51.
Definition UP_ARROW := 0x52.
Definition KEYPAD_ASTERISK := 0x55.
Definition LEFT_CONTROL := 0xE0.
Definition SHIFT := 0xE1.
Definition ALT := 0xE2.
Definition WINDOWS := 0xE3.
End Keycode.

(** ** Key specifications *)

(** What [input] stores in its queue and hands to [key_down]/[key_up]: a
    bare key code, or an instance of the class [Shifted].  Instances of
    [Shifted] define no [__eq__], so Python compares them by identity; every
    instance the script creates wraps a different code (lemma
    [Shifted_instances_distinct] below), hence comparing the wrapped codes
    is comparing identities. *)
Inductive key : Type :=
| Code (c : Z)
| Shifted (key : Z).

(** An entry of the table [keys]: a [key] as above, or an instance of
    [AltShift] with its two attributes. *)
Inductive keyspec : Type :=
| Single (k : key)
| AltShift (key alt_key : key).

Definition key_eqb (a b : key) : bool :=
  match a, b with
  | Code x, Code y => (x =? y)%Z
  | Shifted x, Shifted y => (x =? y)%Z
  | _, _ => false
  end.

(** [value == Keycode.X] for a value that may be a [Shifted] instance. *)
Definition is_code (value : key) (c : Z) : bool := key_eqb value (Code c).

(** ** The HID sink: class [HIDKeyboard] *)

Inductive hid_event : Type :=
| Press (c : Z)
| Release (c : Z).

Module HIDKeyboard.

(** [sent] is the sequence of calls made on [self.keyboard];
    [led_caps_lock] is what the host reports through
    [keyboard.led_on(Keyboard.LED_CAPS_LOCK)]. *)
Record t : Type := mk {
  sent : list hid_event;
  shift_down : bool;
  led_caps_lock : bool
}.

(** [__init__].  The LED report is the host's. *)
Definition init (led : bool) : t :=
  {| sent := []; shift_down := false; led_caps_lock := led |}.

(** [key_press], on the codes the key table and the break button can
    produce (the [str] branch is for literal text, which neither does). *)
Definition key_press (value : Z) (kb : t) : t :=
  {| sent := sent kb ++ [Press value];
     shift_down := if (value =? Keycode.SHIFT)%Z then true else shift_down kb;
     led_caps_lock := led_caps_lock kb |}.

Definition key_release (value : Z) (kb : t) : t :=
  {| sent := sent kb ++ [Release value];
     shift_down := if (value =? Keycode.SHIFT)%Z then false else shift_down kb;
     led_caps_lock := led_caps_lock kb |}.

End HIDKeyboard.

(** ** Python dictionaries keyed by [key] *)

Module Dict.
Section Items.
Variable V : Type.

Definition t : Type := list (key * V).

(** [k in d] *)
Definition contains (k : key) (d : t) : bool :=
  existsb (fun e => key_eqb (fst e) k) d.

(** [d[k] = v]: a present key keeps its place, a new one goes last.  (The
    slot a new key takes is the table's affair; no statement below that
    speaks of an arbitrary dict depends on it, and [check] adds no key.) *)
Fixpoint setitem (k : key) (v : V) (d : t) : t :=
  match d with
  | [] => [(k, v)]
  | (k', v') :: d' =>
      if key_eqb k' k then (k', v) :: d' else (k', v') :: setitem k v d'
  end.

(** [del d[k]], for a key of [d] (the only use is on the key just
    yielded by the iterator of [d]). *)
Definition delitem (k : key) (d : t) : t :=
  filter (fun e => negb (key_eqb (fst e) k)) d.

Definition get (k : key) (d : t) : option V :=
  option_map snd (find (fun e => key_eqb (fst e) k) d).

Definition keys (d : t) : list key := map fst d.

(** The iterator behind [for k, v in d.items()]: a cursor into the table.
    It is kept as the number of filled slots that are still ahead of it,
    which does not change when a slot behind it is emptied. *)
Record iterator : Type := mkIterator { ahead : nat }.

Definition iter (d : t) : iterator := {| ahead := length d |}.

Inductive next_result : Type :=
| Yield (k : key) (v : V) (it : iterator)
| StopIteration.

(** [next(it)]: the first filled slot from the cursor on; there is no
    check that the dict is as it was. *)
Definition next (d : t) (it : iterator) : next_result :=
  match ahead it with
  | O => StopIteration
  | S a =>
      match nth_error d (length d - S a) with
      | Some (k, v) => Yield k v {| ahead := a |}
      | None => StopIteration
      end
  end.
End Items.
End Dict.

(** ** Printed lines *)

Inductive line : Type :=
| SHIFT_BREAK                                        (* "SHIFT + BREAK" *)
| RowColumn (row column : nat) (keycode : option keyspec).

(** ** Class [DebounceInput] *)

Module DebounceInput.
Section WithFloat.
Context {FL : Float}.

Record t : Type := mk {
  queue : Dict.t float;
  short_queue : Dict.t float;
  recent_release : option key;
  delay : float;
  short_delay : float;
  no_input_registered : bool
}.

(** [__init__(delay=0.15, short_delay=0.09)] *)
Definition init (delay short_delay : float) : t :=
  {| queue := []; short_queue := []; recent_release := None;
     delay := delay; short_delay := short_delay;
     no_input_registered := false |}.

Definition default : t := init (float_of_Q (15 # 100)) (float_of_Q (9 # 100)).

(** The two module-level objects the methods work on, and standard
    output. *)
Record env : Type := mkEnv {
  bbc_keyboard : HIDKeyboard.t;
  input_processor : t;
  stdout : list line
}.

Definition with_keyboard (kb : HIDKeyboard.t) (e : env) : env :=
  {| bbc_keyboard := kb; input_processor := input_processor e;
     stdout := stdout e |}.

Definition with_processor (p : t) (e : env) : env :=
  {| bbc_keyboard := bbc_keyboard e; input_processor := p;
     stdout := stdout e |}.

Definition print (l : line) (e : env) : env :=
  {| bbc_keyboard := bbc_keyboard e; input_processor := input_processor e;
     stdout := stdout e ++ [l] |}.

(** [key_down(value, shift_escape)] *)
Definition key_down (value : key) (shift_escape : bool)
    (kb : HIDKeyboard.t) : HIDKeyboard.t :=
  let kb := if shift_escape
            then HIDKeyboard.key_release Keycode.SHIFT kb else kb in
  let kb := match value with
            | Shifted k =>
                HIDKeyboard.key_release Keycode.SHIFT
                  (HIDKeyboard.key_press k
                     (HIDKeyboard.key_press Keycode.SHIFT kb))
            | Code c => HIDKeyboard.key_press c kb
            end in
  if shift_escape then HIDKeyboard.key_press Keycode.SHIFT kb else kb.

(** [key_up(value)] *)
Definition key_up (value : key) (kb : HIDKeyboard.t) : HIDKeyboard.t :=
  match value with
  | Shifted k =>
      HIDKeyboard.key_release k (HIDKeyboard.key_release Keycode.SHIFT kb)
  | Code c => HIDKeyboard.key_release c kb
  end.

(** Lines 186-191 of [input]: an [AltShift] is replaced by one of its two
    keys according to [bbc_keyboard.shift_down]; the second component is
    [shift_escape]. *)
Definition resolve (value : keyspec) (kb : HIDKeyboard.t) : key * bool :=
  match value with
  | AltShift k alt_key =>
      if HIDKeyboard.shift_down kb then (alt_key, true) else (k, false)
  | Single k => (k, false)
  end.

(** [input(value, shift)]; [now] is the reading of [time.monotonic()]. *)
Definition input (value : keyspec) (shift : bool) (now : float) (e : env) : env :=
  let p := input_processor e in
  let p := {| queue := queue p; short_queue := short_queue p;
              recent_release := recent_release p; delay := delay p;
              short_delay := short_delay p;
              no_input_registered := false |} in
  let e := with_processor p e in
  let '(value, shift_escape) := resolve value (bbc_keyboard e) in
  let e := if shift && is_code value Keycode.BACKSPACE
           then print SHIFT_BREAK e else e in
  if negb (Dict.contains value (queue p)) then
    let e := with_keyboard (key_down value shift_escape (bbc_keyboard e)) e in
    with_processor
      {| queue := Dict.setitem value now (queue p);
         short_queue := short_queue p;
         recent_release := recent_release p; delay := delay p;
         short_delay := short_delay p;
         no_input_registered := no_input_registered p |} e
  else e.

(** [no_input()] *)
Definition no_input (e : env) : env :=
  let p := input_processor e in
  with_processor
    {| queue := queue p; short_queue := short_queue p;
       recent_release := recent_release p; delay := delay p;
       short_delay := short_delay p; no_input_registered := true |} e.

(** The delay the body of the loop of [check] computes for key [k]. *)
Definition dwell (k : key) (p : t) : float :=
  let delay := if no_input_registered p then fdiv (delay p) (float_of_Q 2%Q) else delay p in
  match recent_release p with
  | Some r => if key_eqb k r then short_delay p else delay
  | None => delay
  end.

(** The test [v + delay < current_time]. *)
Definition expired (current_time : float) (k : key) (v : float) (p : t) : bool :=
  fltb (fadd v (dwell k p)) current_time.

(** One pass through the body of the [for] loop of [check], for the item
    [(k, v)]. *)
Definition check_body (current_time : float) (k : key) (v : float) (e : env) : env :=
  let p := input_processor e in
  if expired current_time k v p then
    let e := with_keyboard (key_up k (bbc_keyboard e)) e in
    with_processor
      {| queue := Dict.delitem k (queue p);
         short_queue := short_queue p;
         recent_release := Some k; delay := delay p;
         short_delay := short_delay p;
         no_input_registered := no_input_registered p |} e
  else e.

(** How a call ends: it returns, or an exception leaves it; either way
    with the state reached.  (The loop of [check] below raises nothing; the
    second case is what a caller has to provide for.) *)
Inductive outcome : Type :=
| Returned (e : env)
| Raised_RuntimeError (e : env).

Definition final (o : outcome) : env :=
  match o with Returned e => e | Raised_RuntimeError e => e end.

(** The [for] loop of [check]: [fuel] bounds the number of calls of
    [next]; [None] is for a bound that was too small. *)
Fixpoint check_loop (fuel : nat) (current_time : float)
    (it : Dict.iterator) (e : env) : option outcome :=
  match fuel with
  | O => None
  | S fuel =>
      match Dict.next (queue (input_processor e)) it with
      | Dict.StopIteration _ => Some (Returned e)
      | Dict.Yield k v it =>
          check_loop fuel current_time it (check_body current_time k v e)
      end
  end.

(** [check()]; [current_time] is the reading of [time.monotonic()].  An
    iterator over [n] items is asked at most [n + 1] times. *)
Definition check (current_time : float) (e : env) : option outcome :=
  let d := queue (input_processor e) in
  check_loop (S (length d)) current_time (Dict.iter d) e.

End WithFloat.
End DebounceInput.


(** ** The key table [keys] *)

(** The assignments [keys[row][column] = ...] of lines 40-116, in the order
    of the source, as [(row, column, value)]. *)
Definition assignments : list (nat * nat * keyspec) :=
  let code c := Single (Code c) in
  let shifted c := Single (Shifted c) in
  [ (2, 0, code Keycode.F1);
    (7, 1, code Keycode.F2);
    (7, 2, code Keycode.F3);
    (7, 3, code Keycode.F4);
    (1, 4, code Keycode.F5);
    (7, 4, code Keycode.F6);
    (7, 5, code Keycode.F7);
    (1, 6, code Keycode.F8);
    (7, 6, code Keycode.F9);
    (7, 7, code Keycode.F10);
    (7, 0, code Keycode.ESCAPE);
    (3, 0, code Keycode.ONE);
    (3, 1, code Keycode.TWO);
    (1, 1, AltShift (Code Keycode.THREE) (Code Keycode.POUND));
    (1, 2, code Keycode.FOUR);
    (1, 3, code Keycode.FIVE);
    (3, 4, AltShift (Code Keycode.SIX) (Shifted Keycode.SEVEN));
    (2, 4, AltShift (Code Keycode.SEVEN) (Code Keycode.QUOTE));
    (1, 5, AltShift (Code Keycode.EIGHT) (Shifted Keycode.NINE));
    (2, 6, AltShift (Code Keycode.NINE) (Shifted Keycode.ZERO));
    (2, 7, code Keycode.ZERO);
    (1, 7, AltShift (Code Keycode.MINUS) (Code Keycode.EQUALS));
    (1, 8, AltShift (Shifted Keycode.SIX) (Shifted Keycode.POUND));
    (7, 8, code Keycode.BACKSLASH);
    (1, 9, code Keycode.LEFT_ARROW);
    (7, 9, code Keycode.RIGHT_ARROW);
    (6, 0, code Keycode.TAB);
    (1, 0, code Keycode.Q);
    (2, 1, code Keycode.W);
    (2, 2, code Keycode.E);
    (3, 3, code Keycode.R);
    (2, 3, code Keycode.T);
    (4, 4, code Keycode.Y);
    (3, 5, code Keycode.U);
    (2, 5, code Keycode.I);
    (3, 6, code Keycode.O);
    (3, 7, code Keycode.P);
    (4, 7, shifted Keycode.QUOTE);
    (3, 8, code Keycode.LEFT_BRACKET);
    (2, 8, AltShift (Shifted Keycode.MINUS) (Shifted Keycode.THREE));
    (3, 9, code Keycode.UP_ARROW);
    (2, 9, code Keycode.DOWN_ARROW);
    (4, 0, code Keycode.CAPS_LOCK);
    (0, 1, code Keycode.LEFT_CONTROL);
    (4, 1, code Keycode.A);
    (5, 1, code Keycode.S);
    (3, 2, code Keycode.D);
    (4, 3, code Keycode.F);
    (5, 3, code Keycode.G);
    (5, 4, code Keycode.H);
    (4, 5, code Keycode.J);
    (4, 6, code Keycode.K);
    (5, 6, code Keycode.L);
    (5, 7, AltShift (Code Keycode.SEMICOLON) (Shifted Keycode.EQUALS));
    (4, 8, AltShift (Code Keycode.KEYPAD_ASTERISK) (Shifted Keycode.SEMICOLON));
    (5, 8, code Keycode.RIGHT_BRACKET);
    (4, 9, code Keycode.RETURN);
    (5, 0, code Keycode.ALT);
    (0, 0, code Keycode.SHIFT);
    (6, 1, code Keycode.Z);
    (4, 2, code Keycode.X);
    (5, 2, code Keycode.C);
    (6, 3, code Keycode.V);
    (6, 4, code Keycode.B);
    (5, 5, code Keycode.N);
    (6, 5, code Keycode.M);
    (6, 6, code Keycode.COMMA);
    (6, 7, code Keycode.PERIOD);
    (6, 8, code Keycode.FORWARD_SLASH);
    (5, 9, code Keycode.DELETE);
    (6, 9, code Keycode.WINDOWS);
    (6, 2, code Keycode.SPACEBAR) ].

(** [keys[row][column]]; [None] stands for the [KeyError] of a missing row
    or column.  A later assignment to the same place would win. *)
Definition keys (row column : nat) : option keyspec :=
  option_map snd
    (find (fun a => Nat.eqb (fst (fst a)) row && Nat.eqb (snd (fst a)) column)
          (rev assignments)).

(** The instances of [Shifted] the table creates. *)
Definition shifted_of_key (k : key) : list Z :=
  match k with Shifted c => [c] | Code _ => [] end.

Definition Shifted_instances : list Z :=
  flat_map (fun a => match snd a with
                     | Single k => shifted_of_key k
                     | AltShift k alt_key => shifted_of_key k ++ shifted_of_key alt_key
                     end) assignments.

(** ** [int_to_bin] *)

(** The digits of [format(v, "b")] for a positive [v]. *)
Fixpoint bin_of_pos (p : positive) : list ascii :=
  match p with
  | xH => ["1"%char]
  | xO p => bin_of_pos p ++ ["0"%char]
  | xI p => bin_of_pos p ++ ["1"%char]
  end.

(** ["{:0<width>b}".format(v)]: sign, then zeros up to the width, then the
    digits; a number too long for the width is not cut. *)
Definition format_0b (width : nat) (v : Z) : list ascii :=
  let sign := match v with Zneg _ => ["-"%char] | _ => [] end in
  let digits := match v with
                | Z0 => ["0"%char]
                | Zpos p | Zneg p => bin_of_pos p
                end in
  sign ++ repeat "0"%char (width - length sign - length digits) ++ digits.

(** [int(x)] for a one-character string; [None] is [ValueError]. *)
Definition int_of_char (x : ascii) : option nat :=
  let n := nat_of_ascii x in
  if (48 <=? n)%nat && (n <=? 57)%nat then Some (n - 48)%nat else None.

(** A list comprehension whose element expression may raise. *)
Fixpoint comprehension {A B : Type} (f : A -> option B) (l : list A)
    : option (list B) :=
  match l with
  | [] => Some []
  | a :: l =>
      match f a with
      | None => None
      | Some b => option_map (cons b) (comprehension f l)
      end
  end.

(** [int_to_bin(v, max)]; the format string is ["{:0" + str(max) + "b}"]. *)
Definition int_to_bin (v : Z) (max : nat) : option (list bool) :=
  comprehension
    (fun x => option_map (fun n => negb (Nat.eqb n 0)) (int_of_char x))
    (format_0b max v).

(** ** Pins *)

Inductive pin : Type :=
| GP0 | GP1 | GP2 | GP3 | GP4 | GP5 | GP6 | GP7 | GP8 | GP9
| GP10 | GP12 | GP13 | GP14 | GP15 | GP25.

Definition pin_number (p : pin) : nat :=
  match p with
  | GP0 => 0 | GP1 => 1 | GP2 => 2 | GP3 => 3 | GP4 => 4 | GP5 => 5
  | GP6 => 6 | GP7 => 7 | GP8 => 8 | GP9 => 9 | GP10 => 10 | GP12 => 12
  | GP13 => 13 | GP14 => 14 | GP15 => 15 | GP25 => 25
  end.

Definition pin_eqb (p q : pin) : bool := Nat.eqb (pin_number p) (pin_number q).

(** The output pins: the level each one drives, and every assignment to an
    [output.value] so far, oldest first. *)
Module Pins.
Record t : Type := mk {
  level : pin -> bool;
  written : list (pin * bool)
}.

(** [DigitalInOut(p).value = v] *)
Definition write (p : pin) (v : bool) (ps : t) : t :=
  {| level := fun q => if pin_eqb q p then v else level ps q;
     written := written ps ++ [(p, v)] |}.
End Pins.

(** Class [Output]. *)
Module Output.
Record t : Type := mk { output : pin; reverse : bool }.

Definition toggle (o : t) (ps : Pins.t) : Pins.t :=
  Pins.write (output o) (negb (Pins.level ps (output o))) ps.

Definition set (o : t) (value : bool) (ps : Pins.t) : Pins.t :=
  if value then Pins.write (output o) (negb (reverse o)) ps
  else Pins.write (output o) (reverse o) ps.

Definition set_on (o : t) : Pins.t -> Pins.t := set o true.
Definition set_off (o : t) : Pins.t -> Pins.t := set o false.
End Output.

Section Board.
Context {FL : Float}.

(** What is outside the script: the level an input pin reads, given the
    levels the outputs drive, and the successive readings of the clock
    ([time.monotonic()], and the ticks the debouncer asks for). *)
Record board : Type := mkBoard {
  value : pin -> (pin -> bool) -> bool;
  monotonic : nat -> float
}.

End Board.

(** Modelled from the spec: the edge debouncer ([update()], a debounced
    level), a library class whose code is not part of the script.  The
    debounced level follows the raw one once the raw one has kept a level
    for [interval]. *)
Module Debouncer.
Section WithFloat.
Context {FL : Float}.
Record t : Type := mk {
  debounced : bool;
  unstable : bool;
  last_bounce : float;
  interval : float
}.

Definition init (current_state : bool) : t :=
  {| debounced := current_state; unstable := current_state;
     last_bounce := float_of_Q 0%Q; interval := float_of_Q (1 # 100) |}.

Definition update (current_state : bool) (now : float) (d : t) : t :=
  if negb (Bool.eqb current_state (unstable d)) then
    {| debounced := debounced d; unstable := negb (unstable d);
       last_bounce := now; interval := interval d |}
  else if negb (fltb (fsub now (last_bounce d)) (interval d))
          && negb (Bool.eqb current_state (debounced d)) then
    {| debounced := negb (debounced d); unstable := unstable d;
       last_bounce := now; interval := interval d |}
  else d.
End WithFloat.
End Debouncer.

(** ** The state of the whole script *)

Section World.
Context {FL : Float}.

Record world : Type := mkWorld {
  globals : DebounceInput.env;       (* bbc_keyboard, input_processor, stdout *)
  pins : Pins.t;
  clock_reads : nat;                 (* readings of the clock so far *)
  absence_count : nat;               (* bbc.hs.absence_count *)
  switch : Debouncer.t               (* break_button.switch *)
}.

Definition with_globals (e : DebounceInput.env) (w : world) : world :=
  {| globals := e; pins := pins w; clock_reads := clock_reads w;
     absence_count := absence_count w; switch := switch w |}.

Definition with_pins (ps : Pins.t) (w : world) : world :=
  {| globals := globals w; pins := ps; clock_reads := clock_reads w;
     absence_count := absence_count w; switch := switch w |}.

Definition with_absence_count (n : nat) (w : world) : world :=
  {| globals := globals w; pins := pins w; clock_reads := clock_reads w;
     absence_count := n; switch := switch w |}.

Definition with_switch (d : Debouncer.t) (w : world) : world :=
  {| globals := globals w; pins := pins w; clock_reads := clock_reads w;
     absence_count := absence_count w; switch := d |}.

(** A reading of the clock. *)
Definition time_monotonic (b : board) (w : world) : float * world :=
  (monotonic b (clock_reads w),
   {| globals := globals w; pins := pins w; clock_reads := S (clock_reads w);
      absence_count := absence_count w; switch := switch w |}).

(** [input_processor.input(value, shift=shift)] *)
Definition input_processor_input (b : board) (value : keyspec) (shift : bool)
    (w : world) : world :=
  let '(now, w) := time_monotonic b w in
  with_globals (DebounceInput.input value shift now (globals w)) w.

(** Class [Input]: [tripped()] is [self.input.value is True]. *)
Definition tripped (b : board) (p : pin) (w : world) : bool :=
  value b p (Pins.level (pins w)).

End World.

(** ** Class [SoftwareScan] *)

Module SoftwareScan.
Section WithFloat.
Context {FL : Float}.

Definition row_pins : list pin := [GP5; GP4; GP3].
Definition col_pins : list pin := [GP9; GP8; GP7; GP6].
Definition w_line : pin := GP10.
Definition kb_en : Output.t := Output.mk GP2 false.
Definition max_rows : nat := 2 ^ length row_pins.
Definition max_columns : nat := 2 ^ length col_pins.

Record t : Type := mk {
  r_opts : list (list bool);
  c_opts : list (list bool);
  col_with_options : list (nat * list (pin * bool));
  row_with_options : list (nat * list (pin * bool))
}.

(** [list(enumerate(l))] *)
Definition enumerate {A : Type} (l : list A) : list (nat * A) :=
  combine (seq 0 (length l)) l.

(** The generator [part_zip], collected into a list. *)
Definition part_zip (pins : list pin) (options : list (list bool))
    : list (list (pin * bool)) :=
  map (fun o => combine pins o) options.

(** [range(n)], as the integers [int_to_bin] receives. *)
Definition range (n : nat) : list Z := map Z.of_nat (seq 0 n).

(** [__init__]; [None] when a call of [int_to_bin] raises. *)
Definition init : option t :=
  let col_pin_count := length col_pins in
  let row_pin_count := length row_pins in
  match comprehension (fun x => int_to_bin x row_pin_count)
                      (range (2 ^ row_pin_count)),
        comprehension (fun x => int_to_bin x col_pin_count)
                      (range (2 ^ col_pin_count)) with
  | Some r_opts, Some c_opts =>
      Some {| r_opts := r_opts; c_opts := c_opts;
              col_with_options := enumerate (part_zip col_pins c_opts);
              row_with_options := enumerate (part_zip row_pins r_opts) |}
  | _, _ => None
  end.

(** [no_input()] *)
Definition no_input (w : world) : world :=
  with_globals (DebounceInput.no_input (globals w)) w.

(** The truth value of a table entry: a code is an [int], instances of
    [Shifted] and [AltShift] are plain objects. *)
Definition truthy (keycode : option keyspec) : bool :=
  match keycode with
  | None => false
  | Some (Single (Code c)) => negb (c =? 0)%Z
  | Some _ => true
  end.

(** [process(row, column)] *)
Definition process (b : board) (row column : nat) (w : world) : world :=
  let keycode := keys row column in
  let w := with_globals (DebounceInput.print (RowColumn row column keycode) (globals w)) w in
  match keycode with
  | Some k => if truthy keycode then input_processor_input b k false w else w
  | None => w
  end.

(** [for pin, value in pin_opts: pin.output.value = value] *)
Definition drive (pin_opts : list (pin * bool)) (ps : Pins.t) : Pins.t :=
  fold_left (fun ps o => Pins.write (fst o) (snd o) ps) pin_opts ps.

(** [check_shift()] *)
Definition check_shift (b : board) (w : world) : bool * world :=
  let ps := Pins.write (Output.output kb_en) false (pins w) in
  let ps := fold_left (fun ps p => Pins.write p false ps) col_pins ps in
  let ps := fold_left (fun ps p => Pins.write p false ps) row_pins ps in
  let ps := Pins.write GP1 false ps in
  let ps := Pins.write GP1 true ps in
  let value := value b w_line (Pins.level ps) in
  let ps := Pins.write (Output.output kb_en) true ps in
  (value, with_pins ps w).

(** The body of the inner loop of [check], for column [cx] and the row
    entry [(rx, pin_opts)]. *)
Definition check_row (b : board) (cx : nat) (w : world)
    (r : nat * list (pin * bool)) : world :=
  let '(rx, pin_opts) := r in
  let ps := drive pin_opts (pins w) in
  let ps := Pins.write GP1 false ps in
  let ps := Pins.write GP1 true ps in
  let w := with_pins ps w in
  if value b w_line (Pins.level ps) then process b rx cx w else w.

(** The body of the outer loop of [check]. *)
Definition check_column (b : board) (self : t) (w : world)
    (c : nat * list (pin * bool)) : world :=
  let '(cx, pin_opts) := c in
  let w := with_pins (drive pin_opts (pins w)) w in
  fold_left (check_row b cx) (row_with_options self) w.

(** [check()]: the full sweep. *)
Definition check (b : board) (self : t) (w : world) : world :=
  let w := with_pins (Pins.write (Output.output kb_en) false (pins w)) w in
  let w := fold_left (check_column b self) (col_with_options self) w in
  with_pins (Pins.write (Output.output kb_en) true (pins w)) w.

End WithFloat.
End SoftwareScan.

(** ** Class [LED] and [HIDKeyboard.align_leds] *)

Module LED.
Definition internal_led : Output.t := Output.mk GP25 false.
Definition caps_lock : Output.t := Output.mk GP15 true.
Definition shift_lock : Output.t := Output.mk GP14 true.
Definition cassette_motor : Output.t := Output.mk GP13 true.
End LED.

Section Leds.
Context {FL : Float}.

Definition align_leds (w : world) : world :=
  with_pins
    (Output.set LED.caps_lock
       (HIDKeyboard.led_caps_lock (DebounceInput.bbc_keyboard (globals w)))
       (pins w)) w.

End Leds.

(** ** Class [HardwareScan] *)

Module HardwareScan.
Section WithFloat.
Context {FL : Float}.

Definition clock : Output.t := Output.mk GP1 false.
Definition interrupt : pin := GP12.

(** [check(trigger_func, absence_func)] *)
Definition check (b : board) (trigger_func absence_func : world -> world)
    (w : world) : world :=
  let w :=
    if tripped b interrupt w then
      let w := with_pins (Output.set_off clock (pins w)) w in
      let w := trigger_func w in
      with_absence_count 0 w
    else
      let w := with_absence_count (absence_count w + 1) w in
      if (100 <? absence_count w)%nat then
        let w := absence_func w in
        with_absence_count 0 w
      else w in
  let w := with_pins (Output.set_off clock (pins w)) w in
  let w := with_pins (Output.set_on clock (pins w)) w in
  align_leds w.

End WithFloat.
End HardwareScan.

(** ** Class [BreakButtonProcessor] *)

Module BreakButtonProcessor.
Section WithFloat.
Context {FL : Float}.

(** [break_button = BreakButtonProcessor(pin=board.GP0, label=Keycode.BACKSPACE)] *)
Definition input : pin := GP0.
Definition label : keyspec := Single (Code Keycode.BACKSPACE).

(** [self.switch.update()]: the debouncer samples the pin and the clock. *)
Definition switch_update (b : board) (w : world) : world :=
  let current_state := value b input (Pins.level (pins w)) in
  let '(now, w) := time_monotonic b w in
  with_switch (Debouncer.update current_state now (switch w)) w.

(** [check()] *)
Definition check (b : board) (w : world) : world :=
  let w := switch_update b w in
  if negb (tripped b input w) then
    let '(shift, w) := SoftwareScan.check_shift b w in
    input_processor_input b label shift w
  else w.

End WithFloat.
End BreakButtonProcessor.

(** * Observations

    What the statements below speak of: the sequences the sink should
    see, the environments that can be reached, the selections a run of
    assignments latches, and boards and worlds to evaluate the script on. *)

Import DebounceInput.

(** Case analysis on a number bounded by a hypothesis in the context. *)
Ltac cases_below n :=
  first [ exfalso; lia | destruct n as [|n]; [ | cases_below n ] ].

Section Observations.
Context {FL : Float}.

(** A test for lists of numbers without repetition. *)
Fixpoint distinctb (l : list nat) : bool :=
  match l with
  | [] => true
  | x :: l => negb (existsb (Nat.eqb x) l) && distinctb l
  end.

(** A key's own press sequence, as the sink sees it. *)
Definition own_press_sequence (value : key) : list hid_event :=
  match value with
  | Shifted c => [Press Keycode.SHIFT; Press c; Release Keycode.SHIFT]
  | Code c => [Press c]
  end.

(** The events a key's up-event consists of. *)
Definition release_sequence (value : key) : list hid_event :=
  match value with
  | Shifted c => [Release Keycode.SHIFT; Release c]
  | Code c => [Release c]
  end.

(** An environment fresh from the constructors. *)
Definition fresh : env :=
  {| bbc_keyboard := HIDKeyboard.init false;
     input_processor := DebounceInput.default;
     stdout := [] |}.

(** The pending timestamp of a key: [self.queue.get(k)]. *)
Definition observed_at (k : key) (e : env) : option float :=
  Dict.get k (queue (input_processor e)).

Definition pending (k : key) (e : env) : bool :=
  Dict.contains k (queue (input_processor e)).

(** The environments the script can be in, as far as [DebounceInput] is
    concerned: made by the constructors, then changed by calls of [input],
    [no_input] and [check], however the latter ends. *)
Inductive reachable : env -> Prop :=
| reachable_init (kb : HIDKeyboard.t) (delay short_delay : float) :
    reachable {| bbc_keyboard := kb;
                 input_processor := DebounceInput.init delay short_delay;
                 stdout := [] |}
| reachable_input (value : keyspec) (shift : bool) (now : float) (e : env) :
    reachable e -> reachable (input value shift now e)
| reachable_no_input (e : env) :
    reachable e -> reachable (no_input e)
| reachable_check (current_time : float) (e : env) (o : outcome) :
    reachable e -> check current_time e = Some o -> reachable (final o).

Definition one_entry_per_key (e : env) : Prop :=
  NoDup (Dict.keys (queue (input_processor e))).


(** The environment after consecutive calls of [check] at the given times,
    each taken as it ends. *)
Definition after_checks (times : list float) (e : env) : env :=
  fold_left (fun e t => match check t e with
                        | Some o => final o
                        | None => e
                        end) times e.

(** The number a list of bits stands for, most significant bit first. *)
Definition big_endian (bits : list bool) : Z :=
  fold_left (fun acc b => (2 * acc + Z.b2z b)%Z) bits 0%Z.

(** The binary digits of a positive number, most significant first. *)
Fixpoint bits_of_pos (p : positive) : list bool :=
  match p with
  | xH => [true]
  | xO p => bits_of_pos p ++ [false]
  | xI p => bits_of_pos p ++ [true]
  end.

Definition char_of_bit (b : bool) : ascii := if b then "1"%char else "0"%char.

(** The bits [int_to_bin] returns for a number that is not negative. *)
Definition bits_of_Z (v : Z) : list bool :=
  match v with
  | Zpos p => bits_of_pos p
  | _ => [false]
  end.

(** The scanner object [bbc.ss]. *)
Definition bbc_ss : SoftwareScan.t :=
  match SoftwareScan.init with
  | Some self => self
  | None => SoftwareScan.mk [] [] [] []
  end.

(** The levels on the row-select and the column-select lines. *)
Definition selection (lv : pin -> bool) : list bool * list bool :=
  (map lv SoftwareScan.row_pins, map lv SoftwareScan.col_pins).

(** The selections latched while a sequence of assignments to the pins is
    carried out from the levels [lv]: one each time the strobe GP1 is
    raised. *)
Fixpoint latched (lv : pin -> bool) (log : list (pin * bool))
    : list (list bool * list bool) :=
  match log with
  | [] => []
  | (p, v) :: log =>
      let lv' := fun q => if pin_eqb q p then v else lv q in
      (if pin_eqb p GP1 && v then [selection lv'] else [])
        ++ latched lv' log
  end.

(** The assignments to the pins a sweep makes. *)
Definition sweep_log (self : SoftwareScan.t) : list (pin * bool) :=
  [(GP2, false)]
  ++ flat_map
       (fun c => snd c ++
          flat_map (fun r => snd r ++ [(GP1, false); (GP1, true)])
                   (SoftwareScan.row_with_options self))
       (SoftwareScan.col_with_options self)
  ++ [(GP2, true)].

(** Row and column numbers in the order the sweep takes them, with the
    encodings [int_to_bin] gives them. *)
Definition all_selections : list (option (list bool) * option (list bool)) :=
  flat_map (fun c => map (fun r => (int_to_bin r 3, int_to_bin c 4))
                         (SoftwareScan.range 8))
           (SoftwareScan.range 16).

Fixpoint bits_eqb (x y : list bool) : bool :=
  match x, y with
  | [], [] => true
  | a :: x, b :: y => Bool.eqb a b && bits_eqb x y
  | _, _ => false
  end.

(** The sense line is high for the selection of [(row, column)] and for no
    other: that switch of the matrix is closed, and it alone. *)
Definition only_closed (b : board) (row column : nat) : Prop :=
  forall lv,
    value b SoftwareScan.w_line lv = true <->
    int_to_bin (Z.of_nat row) 3 = Some (fst (selection lv))
    /\ int_to_bin (Z.of_nat column) 4 = Some (snd (selection lv)).

(** A board on which the sense line compares the selection with one given
    pair of encodings. *)
Definition single_contact (rows columns : option (list bool))
    (other : pin -> (pin -> bool) -> bool) (clock : nat -> float) : board :=
  {| value := fun p lv =>
       if pin_eqb p SoftwareScan.w_line then
         match rows, columns with
         | Some r, Some c =>
             bits_eqb r (fst (selection lv)) && bits_eqb c (snd (selection lv))
         | _, _ => false
         end
       else other p lv;
     monotonic := clock |}.

(** The world when the script starts: nothing sent, nothing pending, every
    output low, the break line high. *)
Definition power_on : world :=
  {| globals := fresh;
     pins := {| Pins.level := fun _ => false; Pins.written := [] |};
     clock_reads := 0;
     absence_count := 0;
     switch := Debouncer.init true |}.

(** A board whose interrupt line is high and whose other inputs are low. *)
Definition key_interrupt : board :=
  {| value := fun p _ => pin_eqb p HardwareScan.interrupt;
     monotonic := fun _ => float_of_Q 0%Q |}.

(** A board on which the break line reads low and every other input too. *)
Definition break_line_low : board :=
  {| value := fun _ _ => false; monotonic := fun _ => float_of_Q 0%Q |}.

(** A board on which the break line reads high. *)
Definition break_line_high : board :=
  {| value := fun p _ => pin_eqb p BreakButtonProcessor.input;
     monotonic := fun _ => float_of_Q 0%Q |}.

End Observations.

(** * The rest of the script *)

(** ** Class [LED]: [leds] and [set_off] *)

Definition LED_leds : list Output.t :=
  [LED.internal_led; LED.caps_lock; LED.shift_lock; LED.cassette_motor].

Definition LED_set_off (ps : Pins.t) : Pins.t :=
  fold_left (fun ps l => Output.set_off l ps) LED_leds ps.

(** ** Class [BlinkLed] *)

Module BlinkLed.

Definition leds : list Output.t := [LED.internal_led].

Record t : Type := mk { pace : nat; increment : nat }.

(** [__init__] *)
Definition init (ps : Pins.t) : t * Pins.t :=
  ({| pace := 1000; increment := 0 |},
   fold_left (fun ps l => Output.set_off l ps) leds ps).

(** [try_toggle()]; the counter is put back to 0 inside the loop over the
    LEDs, once for each. *)
Definition try_toggle (self : t) (ps : Pins.t) : t * Pins.t :=
  let self := {| pace := pace self; increment := increment self + 1 |} in
  if Nat.eqb (increment self) (pace self) then
    fold_left (fun st l => ({| pace := pace (fst st); increment := 0 |},
                            Output.toggle l (snd st)))
              leds (self, ps)
  else (self, ps).

End BlinkLed.

(** ** Class [BBCKeyboardInterface] *)

Module BBCKeyboardInterface.
Section WithFloat.
Context {FL : Float}.

Record t : Type := mk {
  hardware_scan : bool;
  blink : BlinkLed.t;
  ss : SoftwareScan.t
}.

(** [__init__(hardware_scan)]; [None] when [SoftwareScan()] raises.
    [HardwareScan()] sets its counter to 0; its assignment to
    [SoftwareScan.kb_en.value] gives the wrapper object an attribute and
    drives no pin (the pin is [kb_en.output]). *)
Definition init (hardware_scan : bool) (w : world) : option (t * world) :=
  let '(bl, ps) := BlinkLed.init (pins w) in
  let w := with_pins ps w in
  let w := with_absence_count 0 w in
  match SoftwareScan.init with
  | None => None
  | Some ss =>
      let w := if hardware_scan
               then with_pins (Output.set_on SoftwareScan.kb_en (pins w)) w
               else w in
      Some ({| hardware_scan := hardware_scan; blink := bl; ss := ss |},
            with_pins (LED_set_off (pins w)) w)
  end.

(** How a tick ends: [check] returns, or the exception of
    [input_processor.check()] leaves it. *)
Inductive outcome : Type :=
| Completed (self : t) (w : world)
| Aborted (self : t) (w : world).

(** [check()], the main loop function. *)
Definition check (b : board) (self : t) (w : world) : option outcome :=
  let '(bl, ps) := BlinkLed.try_toggle (blink self) (pins w) in
  let self := {| hardware_scan := hardware_scan self; blink := bl;
                 ss := ss self |} in
  let w := with_pins ps w in
  let w := if hardware_scan self
           then HardwareScan.check b (SoftwareScan.check b (ss self))
                                   SoftwareScan.no_input w
           else SoftwareScan.check b (ss self) w in
  let w := BreakButtonProcessor.check b w in
  let '(current_time, w) := time_monotonic b w in
  match DebounceInput.check current_time (globals w) with
  | Some (DebounceInput.Returned e) => Some (Completed self (with_globals e w))
  | Some (DebounceInput.Raised_RuntimeError e) =>
      Some (Aborted self (with_globals e w))
  | None => None
  end.

End WithFloat.
End BBCKeyboardInterface.

(** ** [megahertz_clock] *)

(** The loop of [megahertz_clock] over the first readings of
    [time.monotonic_ns()] it gets: [func] acts on a state and tells whether
    it raised, which ends the loop.  The result is the state, the value of
    [previous], whether the loop ended by an exception, and the readings at
    which [func] was called. *)
Fixpoint megahertz_loop (St : Type) (func : St -> St * bool) (delay_factor : Z)
    (readings : list Z) (previous : Z) (s : St) : St * Z * bool * list Z :=
  match readings with
  | [] => (s, previous, false, [])
  | current_time :: readings =>
      if (previous + 100 * delay_factor <? current_time)%Z then
        let '(s', raised) := func s in
        if raised then (s', current_time, true, [current_time])
        else
          let '(r, called) :=
            megahertz_loop func delay_factor readings current_time s' in
          (r, current_time :: called)
      else megahertz_loop func delay_factor readings previous s
  end.

(** [megahertz_clock(func, delay_factor)] on these readings. *)
Definition megahertz_clock (St : Type) (func : St -> St * bool)
    (delay_factor : Z) (readings : list Z) (s : St) : St * Z * bool * list Z :=
  megahertz_loop func delay_factor readings 0%Z s.

(** ** Sequences of calls *)

Section Calls.
Context {FL : Float}.

(** The calls the rest of the script makes on [input_processor]. *)
Inductive call : Type :=
| Call_input (value : keyspec) (shift : bool) (now : float)
| Call_no_input
| Call_check (current_time : float).

Definition step (e : env) (c : call) : env :=
  match c with
  | Call_input value shift now => input value shift now e
  | Call_no_input => no_input e
  | Call_check t => match check t e with
                    | Some o => final o
                    | None => e
                    end
  end.

Definition run (calls : list call) (e : env) : env := fold_left step calls e.

(** The two objects as the constructors leave them. *)
Definition start (led : bool) (delay short_delay : float) : env :=
  {| bbc_keyboard := HIDKeyboard.init led;
     input_processor := DebounceInput.init delay short_delay;
     stdout := [] |}.

(** Whether SHIFT is down at the sink after a sequence of events. *)
Definition shift_held (events : list hid_event) : bool :=
  fold_left (fun held ev =>
               match ev with
               | Press c => if (c =? Keycode.SHIFT)%Z then true else held
               | Release c => if (c =? Keycode.SHIFT)%Z then false else held
               end) events false.

(** [shift_down] says what the sink has been told. *)
Definition shift_tracked (kb : HIDKeyboard.t) : Prop :=
  HIDKeyboard.shift_down kb = shift_held (HIDKeyboard.sent kb).

(** Whether every release in a sequence of events comes after a press of
    the same code, given the codes [seen] pressed before. *)
Fixpoint released_after_press (seen : list Z) (events : list hid_event) : bool :=
  match events with
  | [] => true
  | Press c :: events => released_after_press (c :: seen) events
  | Release c :: events =>
      existsb (Z.eqb c) seen && released_after_press seen events
  end.

Definition is_release (ev : hid_event) : bool :=
  match ev with Release _ => true | Press _ => false end.

(** The codes a pending key has had pressed. *)
Definition codes (k : key) : list Z :=
  match k with
  | Code c => [c]
  | Shifted c => [Keycode.SHIFT; c]
  end.

(** What the sink has been sent accounts for the state: every release
    follows a press of its code, SHIFT has been pressed if [shift_down]
    says so, and the codes of every pending key have been pressed. *)
Definition sink_accounts (kb : HIDKeyboard.t) : Prop :=
  released_after_press [] (HIDKeyboard.sent kb) = true
  /\ (HIDKeyboard.shift_down kb = true ->
      In (Press Keycode.SHIFT) (HIDKeyboard.sent kb)).

Definition pending_pressed (e : env) : Prop :=
  forall k c, In k (Dict.keys (queue (input_processor e))) ->
              In c (codes k) ->
              In (Press c) (HIDKeyboard.sent (bbc_keyboard e)).

(** Readings each more than [gap] after the one before, the first more
    than [gap] after [previous]. *)
Fixpoint spaced (gap previous : Z) (times : list Z) : Prop :=
  match times with
  | [] => True
  | t :: times => (previous + gap < t)%Z /\ spaced gap t times
  end.

Definition keyspec_eqb (a b : keyspec) : bool :=
  match a, b with
  | Single x, Single y => key_eqb x y
  | AltShift x x', AltShift y y' => key_eqb x y && key_eqb x' y'
  | _, _ => false
  end.

(** The interface and the world a tick ends with, and whether it ended by
    returning. *)
Definition tick_result (o : BBCKeyboardInterface.outcome)
    : BBCKeyboardInterface.t * world :=
  match o with
  | BBCKeyboardInterface.Completed self w => (self, w)
  | BBCKeyboardInterface.Aborted self w => (self, w)
  end.

Definition tick_completed (o : BBCKeyboardInterface.outcome) : bool :=
  match o with
  | BBCKeyboardInterface.Completed _ _ => true
  | BBCKeyboardInterface.Aborted _ _ => false
  end.

Definition returned (o : outcome) : bool :=
  match o with Returned _ => true | Raised_RuntimeError _ => false end.

(** [n] ticks of the interrupt-assisted scan, as [bbc.check] runs it. *)
Definition hardware_ticks (b : board) (n : nat) (w : world) : world :=
  Nat.iter n (HardwareScan.check b (SoftwareScan.check b bbc_ss)
                                 SoftwareScan.no_input) w.

(** [n] calls of [try_toggle]. *)
Definition blink_ticks (n : nat) (st : BlinkLed.t * Pins.t) : BlinkLed.t * Pins.t :=
  Nat.iter n (fun st => BlinkLed.try_toggle (fst st) (snd st)) st.

End Calls.

(** * Properties *)

Section Properties.
Context {FL : Float}.

(** ** Keys and dictionaries *)

Lemma key_eqb_eq (a b : key) : key_eqb a b = true <-> a = b.
Proof.
  destruct a as [x|x], b as [y|y]; simpl;
    try (split; [discriminate | congruence]);
    rewrite Z.eqb_eq; split; congruence.
Qed.

Lemma key_eqb_refl (a : key) : key_eqb a a = true.
Proof. now apply key_eqb_eq. Qed.

Lemma key_eqb_neq (a b : key) : key_eqb a b = false <-> a <> b.
Proof.
  rewrite <- key_eqb_eq. destruct (key_eqb a b); split; congruence.
Qed.

Lemma distinctb_NoDup (l : list nat) : distinctb l = true -> NoDup l.
Proof.
  induction l as [|x l IH]; simpl; intros H; constructor;
    apply andb_true_iff in H; destruct H as [H1 H2]; [|auto].
  intros Hin. apply negb_true_iff in H1.
  rewrite <- not_true_iff_false in H1. apply H1.
  apply existsb_exists. exists x. split; [assumption | apply Nat.eqb_refl].
Qed.

(** Comparing the codes wrapped by the [Shifted] instances of the table is
    comparing the instances: no code is wrapped twice. *)
Lemma Shifted_instances_distinct : NoDup Shifted_instances.
Proof.
  apply (NoDup_map_inv Z.to_nat). apply distinctb_NoDup. reflexivity.
Qed.

(** No place of the table is assigned twice. *)
Lemma assignments_distinct : NoDup (map fst assignments).
Proof.
  apply (NoDup_map_inv (fun rc => fst rc * 16 + snd rc)).
  apply distinctb_NoDup. reflexivity.
Qed.

Section DictFacts.
Variable V : Type.
Implicit Types (d : Dict.t V) (k : key) (v : V).

Lemma contains_In k d : Dict.contains k d = true <-> In k (Dict.keys d).
Proof.
  unfold Dict.contains, Dict.keys. rewrite existsb_exists, in_map_iff.
  split; intros [e [H1 H2]]; exists e.
  - apply key_eqb_eq in H2. auto.
  - rewrite H1. split; [assumption | apply key_eqb_refl].
Qed.

Lemma contains_false_In k d : Dict.contains k d = false <-> ~ In k (Dict.keys d).
Proof.
  rewrite <- contains_In. destruct (Dict.contains k d); split; congruence.
Qed.

Lemma setitem_new k v d :
  Dict.contains k d = false -> Dict.setitem k v d = d ++ [(k, v)].
Proof.
  induction d as [|[k' v'] d IH]; simpl; intros H; [reflexivity|].
  apply orb_false_iff in H. destruct H as [H1 H2].
  rewrite H1, IH by assumption. reflexivity.
Qed.

Lemma keys_delitem k d :
  Dict.keys (Dict.delitem k d) =
  filter (fun k' => negb (key_eqb k' k)) (Dict.keys d).
Proof.
  unfold Dict.keys, Dict.delitem.
  induction d as [|[k' v'] d IH]; simpl; [reflexivity|].
  destruct (key_eqb k' k); simpl; now rewrite IH.
Qed.

Lemma contains_delitem k d : Dict.contains k (Dict.delitem k d) = false.
Proof.
  apply contains_false_In. rewrite keys_delitem, filter_In.
  intros [_ H]. now rewrite key_eqb_refl in H.
Qed.

Lemma get_delitem_other k k' d :
  k' <> k -> Dict.get k' (Dict.delitem k d) = Dict.get k' d.
Proof.
  intros Hne. unfold Dict.get, Dict.delitem. f_equal.
  induction d as [|[k0 v0] d IH]; simpl; [reflexivity|].
  destruct (key_eqb k0 k) eqn:E; simpl.
  - apply key_eqb_eq in E. subst k0.
    apply not_eq_sym in Hne. apply key_eqb_neq in Hne. now rewrite Hne.
  - destruct (key_eqb k0 k'); [reflexivity | exact IH].
Qed.

Lemma length_delitem_present k d :
  Dict.contains k d = true -> length (Dict.delitem k d) < length d.
Proof.
  unfold Dict.contains, Dict.delitem.
  induction d as [|[k0 v0] d IH]; simpl; [discriminate|].
  destruct (key_eqb k0 k); simpl; intros H.
  - pose proof (filter_length_le (fun e => negb (key_eqb (fst e) k)) d). lia.
  - specialize (IH H). lia.
Qed.

Lemma get_append_new k v d :
  Dict.contains k d = false -> Dict.get k (d ++ [(k, v)]) = Some v.
Proof.
  unfold Dict.get, Dict.contains.
  induction d as [|[k0 v0] d IH]; simpl; intros H.
  - now rewrite key_eqb_refl.
  - apply orb_false_iff in H. destruct H as [H1 H2]. rewrite H1. auto.
Qed.

Lemma get_append_other k k' v d :
  k' <> k -> Dict.get k' (d ++ [(k, v)]) = Dict.get k' d.
Proof.
  intros Hne. unfold Dict.get.
  induction d as [|[k0 v0] d IH]; simpl.
  - apply not_eq_sym in Hne. apply key_eqb_neq in Hne. now rewrite Hne.
  - destruct (key_eqb k0 k'); [reflexivity | exact IH].
Qed.

Lemma NoDup_keys_setitem_new k v d :
  Dict.contains k d = false ->
  NoDup (Dict.keys d) -> NoDup (Dict.keys (Dict.setitem k v d)).
Proof.
  intros H ND. rewrite setitem_new by assumption.
  unfold Dict.keys. rewrite map_app. simpl.
  apply NoDup_app; [assumption | repeat constructor; intros [] | ].
  intros x Hx [Hk|[]]. simpl in Hk. subst x.
  apply contains_false_In in H. contradiction.
Qed.

Lemma NoDup_keys_delitem k d :
  NoDup (Dict.keys d) -> NoDup (Dict.keys (Dict.delitem k d)).
Proof. intros ND. rewrite keys_delitem. now apply NoDup_filter. Qed.

End DictFacts.

(** ** The down-event and the pending queue *)

Lemma sent_key_down_plain (value : key) (kb : HIDKeyboard.t) :
  HIDKeyboard.sent (key_down value false kb) =
  HIDKeyboard.sent kb ++ own_press_sequence value.
Proof.
  destruct value; simpl; rewrite <- ?app_assoc; reflexivity.
Qed.

Lemma sent_key_down_escape (value : key) (kb : HIDKeyboard.t) :
  HIDKeyboard.sent (key_down value true kb) =
  HIDKeyboard.sent kb ++
    Release Keycode.SHIFT :: own_press_sequence value ++ [Press Keycode.SHIFT].
Proof.
  destruct value; simpl; rewrite <- ?app_assoc; reflexivity.
Qed.

Lemma shift_down_key_down_escape (value : key) (kb : HIDKeyboard.t) :
  HIDKeyboard.shift_down (key_down value true kb) = true.
Proof. destruct value; reflexivity. Qed.

Lemma sent_key_up (value : key) (kb : HIDKeyboard.t) :
  HIDKeyboard.sent (key_up value kb) =
  HIDKeyboard.sent kb ++ release_sequence value.
Proof.
  destruct value; simpl; rewrite <- ?app_assoc; reflexivity.
Qed.

(** What [input] does, by cases on whether the resolved key is pending. *)
Lemma input_pending (value : keyspec) (shift : bool) (now : float) (e : env) :
  pending (fst (resolve value (bbc_keyboard e))) e = true ->
  bbc_keyboard (input value shift now e) = bbc_keyboard e /\
  queue (input_processor (input value shift now e)) = queue (input_processor e).
Proof.
  unfold pending, input. simpl.
  destruct (resolve value (bbc_keyboard e)) as [k esc]. simpl. intros ->. simpl.
  destruct (shift && is_code k Keycode.BACKSPACE); simpl; auto.
Qed.

Lemma input_not_pending (value : keyspec) (shift : bool) (now : float) (e : env) :
  pending (fst (resolve value (bbc_keyboard e))) e = false ->
  bbc_keyboard (input value shift now e) =
    key_down (fst (resolve value (bbc_keyboard e)))
             (snd (resolve value (bbc_keyboard e))) (bbc_keyboard e) /\
  queue (input_processor (input value shift now e)) =
    queue (input_processor e) ++ [(fst (resolve value (bbc_keyboard e)), now)].
Proof.
  unfold pending, input. simpl.
  destruct (resolve value (bbc_keyboard e)) as [k esc]. simpl. intros H.
  rewrite H. simpl. rewrite setitem_new by exact H.
  destruct (shift && is_code k Keycode.BACKSPACE); simpl; auto.
Qed.

Lemma stdout_input_unshifted (value : keyspec) (now : float) (e : env) :
  stdout (input value false now e) = stdout e.
Proof.
  unfold input. simpl. destruct (resolve value (bbc_keyboard e)) as [k esc].
  simpl. now destruct (Dict.contains k (queue (input_processor e))).
Qed.

(** C1.  An [AltShift] key observed while [shift_down] holds resolves to its
    alternate; the down-event then sent for it is: release SHIFT, the
    alternate's own press sequence (for a [Shifted] alternate: press SHIFT,
    press the code, release SHIFT), press SHIFT.  [shift_down] is the same
    after the call as before.  The table entry at row 3, column 4 is
    [AltShift(SIX, Shifted(SEVEN))], and for it the sink receives release
    SHIFT, press SHIFT, press SEVEN, release SHIFT, press SHIFT. *)
Theorem escape_sequence_of_alternate
    (k alt_key : key) (shift : bool) (now : float) (e : env) :
  HIDKeyboard.shift_down (bbc_keyboard e) = true ->
  pending alt_key e = false ->
  let e' := input (AltShift k alt_key) shift now e in
  HIDKeyboard.sent (bbc_keyboard e') =
    HIDKeyboard.sent (bbc_keyboard e) ++
      [Release Keycode.SHIFT] ++ own_press_sequence alt_key
      ++ [Press Keycode.SHIFT]
  /\ (forall kb, HIDKeyboard.sent (key_down alt_key false kb) =
                 HIDKeyboard.sent kb ++ own_press_sequence alt_key)
  /\ (forall c, own_press_sequence (Shifted c) =
                [Press Keycode.SHIFT; Press c; Release Keycode.SHIFT])
  /\ HIDKeyboard.shift_down (bbc_keyboard e') =
     HIDKeyboard.shift_down (bbc_keyboard e)
  /\ observed_at alt_key e' = Some now
  /\ keys 3 4 = Some (AltShift (Code Keycode.SIX) (Shifted Keycode.SEVEN))
  /\ (alt_key = Shifted Keycode.SEVEN ->
      HIDKeyboard.sent (bbc_keyboard e') =
        HIDKeyboard.sent (bbc_keyboard e) ++
          [Release Keycode.SHIFT; Press Keycode.SHIFT; Press Keycode.SEVEN;
           Release Keycode.SHIFT; Press Keycode.SHIFT]).
Proof.
  intros Hshift Hnew e'.
  assert (Hres : resolve (AltShift k alt_key) (bbc_keyboard e) = (alt_key, true))
    by (simpl; now rewrite Hshift).
  destruct (@input_not_pending (AltShift k alt_key) shift now e) as [Hkb Hq];
    [now rewrite Hres|].
  rewrite Hres in Hkb, Hq. simpl fst in *. simpl snd in *.
  fold e' in Hkb, Hq.
  assert (Hsent : HIDKeyboard.sent (bbc_keyboard e') =
                  HIDKeyboard.sent (bbc_keyboard e) ++
                    [Release Keycode.SHIFT] ++ own_press_sequence alt_key
                    ++ [Press Keycode.SHIFT])
    by (rewrite Hkb; apply sent_key_down_escape).
  repeat split.
  - exact Hsent.
  - intros kb. apply sent_key_down_plain.
  - rewrite Hkb, Hshift. apply shift_down_key_down_escape.
  - unfold observed_at. rewrite Hq. now apply get_append_new.
  - intros ->. exact Hsent.
Qed.

(** ** SHIFT with BREAK *)

(** C2, as the code has it.  [input] called with BACKSPACE and the shift
    flag prints the line "SHIFT + BREAK" and then treats BACKSPACE as any
    other key: the keyboard and the processor end as they do without the
    flag; BACKSPACE not yet pending is pressed at the sink and becomes
    pending with the time of the call; BACKSPACE already pending sends
    nothing. *)
Theorem shift_break_reported_then_ordinary (now : float) (e : env) :
  let value := Single (Code Keycode.BACKSPACE) in
  let e' := input value true now e in
  stdout e' = stdout e ++ [SHIFT_BREAK]
  /\ stdout (input value false now e) = stdout e
  /\ bbc_keyboard e' = bbc_keyboard (input value false now e)
  /\ input_processor e' = input_processor (input value false now e)
  /\ (if pending (Code Keycode.BACKSPACE) e
      then HIDKeyboard.sent (bbc_keyboard e') = HIDKeyboard.sent (bbc_keyboard e)
           /\ queue (input_processor e') = queue (input_processor e)
      else HIDKeyboard.sent (bbc_keyboard e') =
             HIDKeyboard.sent (bbc_keyboard e) ++ [Press Keycode.BACKSPACE]
           /\ queue (input_processor e') =
                queue (input_processor e) ++ [(Code Keycode.BACKSPACE, now)]).
Proof.
  intros value e'. subst e' value. unfold pending, input. simpl.
  destruct (Dict.contains (Code Keycode.BACKSPACE) (queue (input_processor e)))
    eqn:E; simpl.
  - repeat split.
  - rewrite setitem_new by exact E. repeat split.
Qed.

(** ** At most one pending entry *)

Lemma one_entry_input (value : keyspec) (shift : bool) (now : float) (e : env) :
  one_entry_per_key e -> one_entry_per_key (input value shift now e).
Proof.
  unfold one_entry_per_key. intros ND.
  destruct (pending (fst (resolve value (bbc_keyboard e))) e) eqn:E.
  - destruct (input_pending value shift now e E) as [_ ->]. exact ND.
  - destruct (input_not_pending value shift now e E) as [_ ->].
    rewrite <- setitem_new by exact E.
    now apply NoDup_keys_setitem_new.
Qed.

Lemma one_entry_check_body (t : float) (k : key) (v : float) (e : env) :
  one_entry_per_key e -> one_entry_per_key (check_body t k v e).
Proof.
  unfold one_entry_per_key, check_body. intros ND.
  destruct (expired t k v (input_processor e)); simpl; [|exact ND].
  now apply NoDup_keys_delitem.
Qed.

Lemma one_entry_check_loop (fuel : nat) (t : float) :
  forall (it : Dict.iterator) (e : env) (o : outcome),
  one_entry_per_key e -> check_loop fuel t it e = Some o ->
  one_entry_per_key (final o).
Proof.
  induction fuel as [|fuel IH]; simpl; intros it e o ND H; [discriminate|].
  destruct (Dict.next (queue (input_processor e)) it) as [k v it'|].
  - eapply IH; [|exact H]. now apply one_entry_check_body.
  - injection H as <-. exact ND.
Qed.

Lemma reachable_one_entry (e : env) : reachable e -> one_entry_per_key e.
Proof.
  induction 1 as [kb d s | value shift now e _ IH | e _ IH | t e o _ IH H].
  - constructor.
  - now apply one_entry_input.
  - exact IH.
  - eapply one_entry_check_loop; [exact IH | exact H].
Qed.

(** C4.  In every reachable environment the queue holds at most one entry
    per key; and a call of [input] whose resolved key is already pending
    adds no entry, keeps every timestamp (that of the key included) and
    sends nothing to the sink.  In particular a second [input] of the same
    plain or [Shifted] key right after the first changes neither queue nor
    sink. *)
Theorem at_most_one_pending (e : env) :
  reachable e ->
  NoDup (Dict.keys (queue (input_processor e)))
  /\ (forall value shift now,
        pending (fst (resolve value (bbc_keyboard e))) e = true ->
        let e' := input value shift now e in
        queue (input_processor e') = queue (input_processor e)
        /\ (forall k, observed_at k e' = observed_at k e)
        /\ HIDKeyboard.sent (bbc_keyboard e') = HIDKeyboard.sent (bbc_keyboard e))
  /\ (forall k shift1 now1 shift2 now2,
        let e1 := input (Single k) shift1 now1 e in
        let e2 := input (Single k) shift2 now2 e1 in
        queue (input_processor e2) = queue (input_processor e1)
        /\ observed_at k e2 = observed_at k e1
        /\ HIDKeyboard.sent (bbc_keyboard e2) = HIDKeyboard.sent (bbc_keyboard e1)).
Proof.
  intros R. split; [exact (reachable_one_entry R) | split].
  - intros value shift now P e'.
    destruct (input_pending value shift now e P) as [Hkb Hq]. fold e' in Hkb, Hq.
    unfold observed_at. rewrite Hq, Hkb. auto.
  - intros k shift1 now1 shift2 now2 e1 e2.
    assert (P : pending (fst (resolve (Single k) (bbc_keyboard e1))) e1 = true).
    { simpl. unfold pending, e1.
      destruct (pending (fst (resolve (Single k) (bbc_keyboard e))) e) eqn:E.
      - destruct (input_pending (Single k) shift1 now1 e E) as [_ ->]. exact E.
      - destruct (input_not_pending (Single k) shift1 now1 e E) as [_ ->].
        simpl. apply contains_In. unfold Dict.keys. rewrite map_app.
        apply in_or_app. right. now left. }
    destruct (input_pending (Single k) shift2 now2 e1 P) as [Hkb Hq].
    fold e2 in Hkb, Hq. unfold observed_at. rewrite Hq, Hkb. auto.
Qed.

(** ** The expiry sweep [check] *)

Lemma check_body_keeps (t : float) (k : key) (v : float) (e : env) :
  expired t k v (input_processor e) = false -> check_body t k v e = e.
Proof. unfold check_body. now intros ->. Qed.

Lemma check_body_flag (t : float) (k : key) (v : float) (e : env) :
  no_input_registered (input_processor (check_body t k v e)) =
  no_input_registered (input_processor e).
Proof. unfold check_body. now destruct (expired t k v (input_processor e)). Qed.

(** The iterator yields items of the dict, and its cursor moves on. *)
Lemma next_In (V : Type) (d : Dict.t V) (it it' : Dict.iterator) (k : key) (v : V) :
  Dict.next d it = Dict.Yield k v it' ->
  In (k, v) d /\ Dict.ahead it = S (Dict.ahead it').
Proof.
  unfold Dict.next. destruct (Dict.ahead it) as [|a]; [discriminate|].
  destruct (nth_error d (length d - S a)) as [[k0 v0]|] eqn:E; [|discriminate].
  intros [= -> -> <-]. split; [|reflexivity].
  eapply nth_error_In. exact E.
Qed.

(** The loop ends, and by returning, whatever the dict holds. *)
Lemma check_loop_returns (t : float) (fuel : nat) :
  forall (it : Dict.iterator) (e : env),
  Dict.ahead it < fuel ->
  exists e', check_loop fuel t it e = Some (Returned e').
Proof.
  induction fuel as [|fuel IH]; intros it e H; [lia|]. simpl.
  destruct (Dict.next (queue (input_processor e)) it) as [k v it'|] eqn:N.
  - apply next_In in N. destruct N as [_ A]. apply IH. lia.
  - eauto.
Qed.

Lemma check_returns (t : float) (e : env) :
  exists e', check t e = Some (Returned e').
Proof. apply check_loop_returns. simpl. lia. Qed.

(** What the body of the loop keeps, for items of the queue, the loop
    keeps. *)
Lemma check_loop_invariant (P : env -> Prop) (t : float) :
  (forall k v e, In (k, v) (queue (input_processor e)) ->
                 P e -> P (check_body t k v e)) ->
  forall (fuel : nat) (it : Dict.iterator) (e : env) (o : outcome),
  P e -> check_loop fuel t it e = Some o -> P (final o).
Proof.
  intros Hbody. induction fuel as [|fuel IH]; intros it e o He H;
    [discriminate|]. simpl in H.
  destruct (Dict.next (queue (input_processor e)) it) as [k v it'|] eqn:N.
  - eapply IH; [|exact H]. apply Hbody; [|exact He].
    apply next_In in N. tauto.
  - injection H as <-. exact He.
Qed.

Lemma check_invariant (P : env -> Prop) (t : float) (e : env) (o : outcome) :
  (forall k v e, In (k, v) (queue (input_processor e)) ->
                 P e -> P (check_body t k v e)) ->
  P e -> check t e = Some o -> P (final o).
Proof. intros Hbody He H. eapply check_loop_invariant; eauto. Qed.

(** A call that finds nothing expired changes nothing. *)
Lemma check_loop_quiet (t : float) (fuel : nat) :
  forall (it : Dict.iterator) (e : env),
  (forall k v, In (k, v) (queue (input_processor e)) ->
               expired t k v (input_processor e) = false) ->
  Dict.ahead it < fuel ->
  check_loop fuel t it e = Some (Returned e).
Proof.
  induction fuel as [|fuel IH]; intros it e Hq H; [lia|]. simpl.
  destruct (Dict.next (queue (input_processor e)) it) as [k v it'|] eqn:N;
    [|reflexivity].
  apply next_In in N. destruct N as [Hin A].
  rewrite (check_body_keeps _ _ _ _ (Hq _ _ Hin)). apply IH; [exact Hq | lia].
Qed.

Lemma check_quiet (t : float) (e : env) :
  (forall k v, In (k, v) (queue (input_processor e)) ->
               expired t k v (input_processor e) = false) ->
  check t e = Some (Returned e).
Proof. intros Hq. apply check_loop_quiet; [exact Hq | simpl; lia]. Qed.

Lemma check_flag (t : float) (e : env) :
  option_map (fun o => no_input_registered (input_processor (final o)))
             (check t e)
  = Some (no_input_registered (input_processor e)).
Proof.
  destruct (check_returns t e) as [e' C]. rewrite C. simpl. f_equal.
  apply (@check_invariant
           (fun x => no_input_registered (input_processor x) =
                     no_input_registered (input_processor e))
           t e (Returned e')); [|reflexivity | exact C].
  intros k v x _ H. now rewrite check_body_flag.
Qed.

(** C3, as the code has it.  For the item [(k, v)] the loop of [check]
    examines: the delay is [short_delay] (0.09 by default) when [k] is
    [recent_release]; otherwise [delay / 2] ([delay] is 0.15 by default)
    when [no_input_registered] is set; otherwise [delay].  The item expires
    exactly when the test of the code holds: the float [v + delay], as the
    addition rounds it, is less than [current_time], strictly, so an item
    whose sum is [current_time] itself is kept.  An expired key is no
    longer pending, [recent_release] is the key, the sink has received the
    key's release sequence and the other timestamps are kept; otherwise
    nothing changes. *)
Theorem dwell_and_strict_expiry (current_time : float) (k : key) (v : float) (e : env) :
  let p := input_processor e in
  let e' := check_body current_time k v e in
  (delay DebounceInput.default = float_of_Q (15 # 100)
   /\ short_delay DebounceInput.default = float_of_Q (9 # 100))
  /\ dwell k p =
       (if match recent_release p with Some r => key_eqb k r | None => false end
        then short_delay p
        else if no_input_registered p
             then fdiv (delay p) (float_of_Q 2%Q) else delay p)
  /\ expired current_time k v p = fltb (fadd v (dwell k p)) current_time
  /\ (fadd v (dwell k p) = current_time -> expired current_time k v p = false)
  /\ (if expired current_time k v p
      then pending k e' = false
           /\ recent_release (input_processor e') = Some k
           /\ HIDKeyboard.sent (bbc_keyboard e') =
                HIDKeyboard.sent (bbc_keyboard e) ++ release_sequence k
           /\ (forall k', k' <> k -> observed_at k' e' = observed_at k' e)
      else e' = e).
Proof.
  intros p e'. split; [split; reflexivity|]. split; [|split; [|split]].
  - unfold dwell. destruct (recent_release p) as [r|]; [|reflexivity].
    now destruct (key_eqb k r).
  - reflexivity.
  - intros H. unfold expired. rewrite H. apply fltb_irrefl.
  - subst e'. unfold check_body. fold p.
    destruct (expired current_time k v p); [|reflexivity].
    unfold pending, observed_at. simpl. repeat split.
    + apply contains_delitem.
    + apply sent_key_up.
    + intros k' Hne. now apply get_delitem_other.
Qed.

(** ** The whole pass of [check] *)



Lemma contains_delitem_other (V : Type) (k k' : key) (d : Dict.t V) :
  k' <> k -> Dict.contains k' (Dict.delitem k d) = Dict.contains k' d.
Proof.
  intros Hne. unfold Dict.contains, Dict.delitem.
  induction d as [|[k0 v0] d IH]; simpl; [reflexivity|].
  destruct (key_eqb k0 k) eqn:E; simpl; rewrite IH; [|reflexivity].
  apply key_eqb_eq in E. subst k0.
  apply not_eq_sym in Hne. apply key_eqb_neq in Hne. now rewrite Hne.
Qed.








(** ** The no-input flag *)

Lemma after_checks_flag (times : list float) :
  forall e, no_input_registered (input_processor (after_checks times e)) =
            no_input_registered (input_processor e).
Proof.
  induction times as [|t times IH]; intros e; simpl; [reflexivity|].
  unfold after_checks in *. rewrite IH.
  pose proof (check_flag t e) as H.
  destruct (check t e) as [o|]; simpl in H; congruence.
Qed.

(** C10.  [no_input] sets the flag and touches nothing else; every call of
    [input], whether or not the key it resolves to is pending, clears it;
    [check], however it ends, leaves it as it was.  So after [no_input] the
    flag is still set after any number of calls of [check], and each of
    them uses half of [delay] for every key other than [recent_release]. *)
Theorem no_input_flag_cleared_only_by_input (e : env) :
  (no_input_registered (input_processor (no_input e)) = true
   /\ queue (input_processor (no_input e)) = queue (input_processor e)
   /\ bbc_keyboard (no_input e) = bbc_keyboard e)
  /\ (forall value shift now,
        no_input_registered (input_processor (input value shift now e)) = false)
  /\ (forall t,
        option_map (fun o => no_input_registered (input_processor (final o)))
                   (check t e)
        = Some (no_input_registered (input_processor e)))
  /\ (forall times,
        let p := input_processor (after_checks times (no_input e)) in
        no_input_registered p = true
        /\ forall k, recent_release p <> Some k -> dwell k p = fdiv (delay p) (float_of_Q 2%Q)).
Proof.
  split; [repeat split|]. split; [|split].
  - intros value shift now. unfold input. simpl.
    destruct (resolve value (bbc_keyboard e)) as [k esc].
    destruct (shift && is_code k Keycode.BACKSPACE);
      destruct (Dict.contains k (queue (input_processor e))); reflexivity.
  - intros t. apply check_flag.
  - intros times p.
    assert (F : no_input_registered p = true)
      by (unfold p; now rewrite after_checks_flag).
    split; [exact F|]. intros k Hk. unfold dwell. rewrite F.
    destruct (recent_release p) as [r|]; [|reflexivity].
    destruct (key_eqb k r) eqn:E; [|reflexivity].
    apply key_eqb_eq in E. congruence.
Qed.

(** ** [int_to_bin] *)

Lemma bin_of_pos_bits (p : positive) :
  bin_of_pos p = map char_of_bit (bits_of_pos p).
Proof.
  induction p as [p IH|p IH|]; simpl; [| |reflexivity];
    now rewrite IH, map_app.
Qed.

Lemma comprehension_bits (l : list bool) :
  comprehension
    (fun x => option_map (fun n => negb (Nat.eqb n 0)) (int_of_char x))
    (map char_of_bit l) = Some l.
Proof.
  induction l as [|b l IH]; [reflexivity|].
  cbn [map comprehension]. rewrite IH. now destruct b.
Qed.

Lemma big_endian_snoc (l : list bool) (b : bool) :
  big_endian (l ++ [b]) = (2 * big_endian l + Z.b2z b)%Z.
Proof. unfold big_endian. now rewrite fold_left_app. Qed.

Lemma big_endian_zeros (k : nat) (l : list bool) :
  big_endian (repeat false k ++ l) = big_endian l.
Proof.
  unfold big_endian. rewrite fold_left_app. f_equal.
  induction k as [|k IH]; [reflexivity | exact IH].
Qed.

Lemma big_endian_bits_of_pos (p : positive) :
  big_endian (bits_of_pos p) = Zpos p.
Proof.
  induction p as [p IH|p IH|]; simpl; [| |reflexivity];
    rewrite big_endian_snoc, IH; simpl Z.b2z; lia.
Qed.

Lemma length_bits_of_pos (p : positive) :
  forall n : nat, (Zpos p < 2 ^ Z.of_nat n)%Z -> length (bits_of_pos p) <= n.
Proof.
  induction p as [p IH|p IH|]; intros [|n] H;
    try (change (2 ^ Z.of_nat 0)%Z with 1%Z in H; lia);
    cbn [bits_of_pos]; [| |simpl; lia];
    rewrite length_app; cbn [length];
    rewrite Nat2Z.inj_succ, Z.pow_succ_r in H by lia;
    specialize (IH n); lia.
Qed.

(** A list of bits holds the bits of the number it stands for. *)
Lemma testbit_big_endian (l : list bool) :
  forall i, i < length l ->
  nth i l false = Z.testbit (big_endian l) (Z.of_nat (length l - 1 - i)).
Proof.
  induction l as [|b l IH] using rev_ind; intros i Hi; [simpl in Hi; lia|].
  rewrite length_app in *. simpl in *. rewrite big_endian_snoc.
  destruct (Nat.eq_dec i (length l)) as [->|Hne].
  - rewrite nth_middle. replace (length l + 1 - 1 - length l) with 0 by lia.
    symmetry. apply Z.testbit_0_r.
  - rewrite app_nth1 by lia. rewrite IH by lia.
    replace (Z.of_nat (length l + 1 - 1 - i))
      with (Z.succ (Z.of_nat (length l - 1 - i))) by lia.
    symmetry. apply Z.testbit_succ_r. lia.
Qed.

Lemma int_to_bin_nonneg (v : Z) (max : nat) :
  (0 <= v)%Z ->
  int_to_bin v max =
  Some (repeat false (max - length (bits_of_Z v)) ++ bits_of_Z v).
Proof.
  intros Hv. unfold int_to_bin, format_0b.
  assert (E : match v with
              | 0%Z => ["0"%char]
              | Zpos p | Zneg p => bin_of_pos p
              end = map char_of_bit (bits_of_Z v)).
  { destruct v; [reflexivity | apply bin_of_pos_bits | lia]. }
  rewrite E. replace (match v with Zneg _ => ["-"%char] | _ => [] end)
    with (@nil ascii) by (destruct v; [reflexivity | reflexivity | lia]).
  cbn [app length]. rewrite Nat.sub_0_r, length_map.
  replace (repeat "0"%char (max - length (bits_of_Z v)))
    with (map char_of_bit (repeat false (max - length (bits_of_Z v))))
    by (now rewrite map_repeat).
  rewrite <- map_app. apply comprehension_bits.
Qed.

Lemma SoftwareScan_init : SoftwareScan.init = Some bbc_ss.
Proof. reflexivity. Qed.

(** ** The software sweep *)

Lemma drive_app (a b : list (pin * bool)) (ps : Pins.t) :
  SoftwareScan.drive (a ++ b) ps = SoftwareScan.drive b (SoftwareScan.drive a ps).
Proof. apply fold_left_app. Qed.

Lemma written_drive (log : list (pin * bool)) :
  forall ps, Pins.written (SoftwareScan.drive log ps) = Pins.written ps ++ log.
Proof.
  induction log as [|[p v] log IH]; intros ps; simpl.
  - now rewrite app_nil_r.
  - unfold SoftwareScan.drive in IH. rewrite IH. simpl.
    now rewrite <- app_assoc.
Qed.

Lemma pins_input (b : board) (value : keyspec) (shift : bool) (w : world) :
  pins (input_processor_input b value shift w) = pins w.
Proof. reflexivity. Qed.

Lemma pins_process (b : board) (row column : nat) (w : world) :
  pins (SoftwareScan.process b row column w) = pins w.
Proof.
  unfold SoftwareScan.process.
  destruct (keys row column) as [k|]; [|reflexivity].
  destruct (SoftwareScan.truthy (Some k)); reflexivity.
Qed.

Lemma pins_check_row (b : board) (cx : nat) (w : world)
    (r : nat * list (pin * bool)) :
  pins (SoftwareScan.check_row b cx w r) =
  SoftwareScan.drive (snd r ++ [(GP1, false); (GP1, true)]) (pins w).
Proof.
  destruct r as [rx opts]. unfold SoftwareScan.check_row.
  rewrite drive_app. simpl snd.
  destruct (value b SoftwareScan.w_line _); [rewrite pins_process|];
    reflexivity.
Qed.

Lemma pins_rows (b : board) (cx : nat) (rows : list (nat * list (pin * bool))) :
  forall w,
  pins (fold_left (SoftwareScan.check_row b cx) rows w) =
  SoftwareScan.drive
    (flat_map (fun r => snd r ++ [(GP1, false); (GP1, true)]) rows) (pins w).
Proof.
  induction rows as [|r rows IH]; intros w; [reflexivity|].
  cbn [fold_left flat_map]. rewrite IH, pins_check_row, <- drive_app.
  reflexivity.
Qed.

Lemma pins_columns (b : board) (self : SoftwareScan.t)
    (cols : list (nat * list (pin * bool))) :
  forall w,
  pins (fold_left (SoftwareScan.check_column b self) cols w) =
  SoftwareScan.drive
    (flat_map
       (fun c => snd c ++
          flat_map (fun r => snd r ++ [(GP1, false); (GP1, true)])
                   (SoftwareScan.row_with_options self)) cols) (pins w).
Proof.
  induction cols as [|[cx opts] cols IH]; intros w; [reflexivity|].
  cbn [fold_left flat_map]. rewrite IH. unfold SoftwareScan.check_column.
  rewrite pins_rows. cbn [pins with_pins snd].
  now rewrite <- !drive_app, <- app_assoc.
Qed.

(** The pins after a sweep: those before, driven through [sweep_log]. *)
Lemma pins_check (b : board) (self : SoftwareScan.t) (w : world) :
  pins (SoftwareScan.check b self w) =
  SoftwareScan.drive (sweep_log self) (pins w).
Proof.
  unfold SoftwareScan.check, sweep_log. cbn [pins with_pins].
  rewrite pins_columns. cbn [pins with_pins].
  rewrite !drive_app. reflexivity.
Qed.

Lemma written_check (b : board) (self : SoftwareScan.t) (w : world) :
  Pins.written (pins (SoftwareScan.check b self w)) =
  Pins.written (pins w) ++ sweep_log self.
Proof. rewrite pins_check. apply written_drive. Qed.

(** Whatever the levels before the sweep, the strobe latches the 128
    selections in turn: columns 0 to 15, and within each column rows 0 to
    7, each number as [int_to_bin] encodes it on its lines. *)
Lemma latched_sweep (lv : pin -> bool) :
  map (fun s => (Some (fst s), Some (snd s))) (latched lv (sweep_log bbc_ss))
  = all_selections.
Proof. vm_compute. reflexivity. Qed.

Lemma length_bits_of_Z (v : Z) (n : nat) :
  1 <= n -> (0 <= v < 2 ^ Z.of_nat n)%Z -> length (bits_of_Z v) <= n.
Proof.
  intros Hn [Hv Hlt]. destruct v as [|p|p]; simpl; [lia | | lia].
  now apply length_bits_of_pos.
Qed.

Lemma big_endian_bits_of_Z (v : Z) : (0 <= v)%Z -> big_endian (bits_of_Z v) = v.
Proof.
  destruct v as [|p|p]; intros Hv; [reflexivity | | lia].
  apply big_endian_bits_of_pos.
Qed.

(** C9.  For [n >= 1] and [0 <= v < 2^n], [int_to_bin(v, n)] returns [n]
    booleans, the binary digits of [v] with the most significant first.
    The scanner's [r_opts] and [c_opts] are these lists for the numbers
    below 8 on 3 lines and below 16 on 4 lines, and a sweep latches, for
    each column and row in turn, exactly these encodings on the column and
    row lines. *)
Theorem int_to_bin_big_endian (v : Z) (n : nat) :
  1 <= n -> (0 <= v < 2 ^ Z.of_nat n)%Z ->
  (exists bits,
      int_to_bin v n = Some bits
      /\ length bits = n
      /\ big_endian bits = v
      /\ forall i, i < n ->
           nth i bits false = Z.testbit v (Z.of_nat (n - 1 - i)))
  /\ SoftwareScan.init = Some bbc_ss
  /\ map Some (SoftwareScan.r_opts bbc_ss)
       = map (fun x => int_to_bin x 3) (SoftwareScan.range 8)
  /\ map Some (SoftwareScan.c_opts bbc_ss)
       = map (fun x => int_to_bin x 4) (SoftwareScan.range 16)
  /\ forall (b : board) (w : world),
       exists log,
         Pins.written (pins (SoftwareScan.check b bbc_ss w))
           = Pins.written (pins w) ++ log
         /\ map (fun s => (Some (fst s), Some (snd s)))
                (latched (Pins.level (pins w)) log)
            = all_selections.
Proof.
  intros Hn Hv. split; [|split; [|split; [|split]]].
  - exists (repeat false (n - length (bits_of_Z v)) ++ bits_of_Z v).
    pose proof (length_bits_of_Z Hn Hv) as Hlen.
    assert (L : length (repeat false (n - length (bits_of_Z v)) ++ bits_of_Z v) = n)
      by (rewrite length_app, repeat_length; lia).
    assert (B : big_endian (repeat false (n - length (bits_of_Z v)) ++ bits_of_Z v) = v)
      by (rewrite big_endian_zeros; apply big_endian_bits_of_Z; lia).
    split; [apply int_to_bin_nonneg; lia | split; [exact L | split; [exact B|]]].
    intros i Hi.
    pose proof (@testbit_big_endian _ i (eq_ind_r (fun m => i < m) Hi L)) as T.
    rewrite B, L in T. exact T.
  - reflexivity.
  - reflexivity.
  - reflexivity.
  - intros b w. exists (sweep_log bbc_ss). split.
    + apply written_check.
    + apply latched_sweep.
Qed.

(** ** Coverage of the sweep *)

(** A sweep depends on the board only through the sense line and the
    clock. *)
Lemma process_ext (b b' : board) (row column : nat) (w : world) :
  (forall n, monotonic b n = monotonic b' n) ->
  SoftwareScan.process b row column w = SoftwareScan.process b' row column w.
Proof.
  intros Hm. unfold SoftwareScan.process, input_processor_input, time_monotonic.
  cbn [clock_reads with_globals]. now rewrite Hm.
Qed.

Lemma fold_left_ext (A B : Type) (f g : A -> B -> A) (l : list B) :
  (forall a x, f a x = g a x) ->
  forall a, fold_left f l a = fold_left g l a.
Proof.
  intros H. induction l as [|x l IH]; intros a; simpl; [reflexivity|].
  now rewrite H, IH.
Qed.

Lemma check_ext (b b' : board) (self : SoftwareScan.t) (w : world) :
  (forall lv, value b SoftwareScan.w_line lv = value b' SoftwareScan.w_line lv) ->
  (forall n, monotonic b n = monotonic b' n) ->
  SoftwareScan.check b self w = SoftwareScan.check b' self w.
Proof.
  intros Hv Hm. unfold SoftwareScan.check.
  rewrite (@fold_left_ext _ _ (SoftwareScan.check_column b self)
                          (SoftwareScan.check_column b' self)); [reflexivity|].
  intros a [cx copts]. unfold SoftwareScan.check_column.
  apply fold_left_ext. intros a' [rx ropts]. unfold SoftwareScan.check_row.
  rewrite Hv. now rewrite (@process_ext b b' _ _ _ Hm).
Qed.

Lemma bits_eqb_eq (x y : list bool) : bits_eqb x y = true <-> x = y.
Proof.
  revert y. induction x as [|a x IH]; intros [|b y]; simpl;
    try (split; [discriminate | congruence]); [tauto|].
  rewrite andb_true_iff, IH, Bool.eqb_true_iff. split.
  - intros [-> ->]. reflexivity.
  - intros [= -> ->]. auto.
Qed.

Lemma contact_spec (rows columns : option (list bool)) (lv : pin -> bool) :
  match rows, columns with
  | Some r, Some c =>
      bits_eqb r (fst (selection lv)) && bits_eqb c (snd (selection lv))
  | _, _ => false
  end = true
  <-> rows = Some (fst (selection lv)) /\ columns = Some (snd (selection lv)).
Proof.
  destruct rows as [r|], columns as [c|];
    try (split; [discriminate | intros [? ?]; discriminate]).
  rewrite andb_true_iff, !bits_eqb_eq. split.
  - intros [-> ->]. auto.
  - intros [H1 H2]. injection H1 as ->. injection H2 as ->. auto.
Qed.

Lemma single_contact_only_closed (row column : nat)
    (other : pin -> (pin -> bool) -> bool) (clock : nat -> float) :
  only_closed (single_contact (int_to_bin (Z.of_nat row) 3)
                              (int_to_bin (Z.of_nat column) 4) other clock)
              row column.
Proof. intros lv. apply contact_spec. Qed.

Lemma only_closed_value (b : board) (row column : nat) :
  only_closed b row column ->
  forall lv,
    value b SoftwareScan.w_line lv =
    value (single_contact (int_to_bin (Z.of_nat row) 3)
                          (int_to_bin (Z.of_nat column) 4)
                          (value b) (monotonic b)) SoftwareScan.w_line lv.
Proof.
  intros H lv. apply eq_true_iff_eq. rewrite (H lv). symmetry.
  apply contact_spec.
Qed.

Lemma sweep_single_contact (b : board) (w : world) (row column : nat) :
  row < 8 -> column < 16 ->
  let w' := SoftwareScan.check
              (single_contact (int_to_bin (Z.of_nat row) 3)
                              (int_to_bin (Z.of_nat column) 4)
                              (value b) (monotonic b)) bbc_ss w in
  globals w' = globals (SoftwareScan.process b row column w)
  /\ clock_reads w' = clock_reads (SoftwareScan.process b row column w).
Proof.
  intros Hr Hc.
  cases_below row; cases_below column; vm_compute; split; reflexivity.
Qed.

Lemma all_selections_complete (r c : nat) :
  r < 8 -> c < 16 ->
  In (int_to_bin (Z.of_nat r) 3, int_to_bin (Z.of_nat c) 4) all_selections.
Proof.
  intros Hr Hc. unfold all_selections, SoftwareScan.range.
  apply in_flat_map. exists (Z.of_nat c). split.
  - apply in_map. apply in_seq. lia.
  - apply in_map_iff. exists (Z.of_nat r). split; [reflexivity|].
    apply in_map. apply in_seq. lia.
Qed.

(** C5.  A sweep selects every pair of a row below 8 and a column below 16,
    128 selections in all.  When the sense line is high for one selection
    only, the sweep calls [process] for that row and column and for no
    other.  For row 3, column 7 the table gives P, which is passed to
    [input], once; for row 0, column 5 the table gives nothing, and nothing
    is passed to [input]: the line is printed and that is all. *)
Theorem sweep_coverage (b : board) (w : world) (row column : nat) :
  row < 8 -> column < 16 -> only_closed b row column ->
  let w' := SoftwareScan.check b bbc_ss w in
  (SoftwareScan.max_rows = 8 /\ SoftwareScan.max_columns = 16
   /\ length all_selections = 128
   /\ (forall r c, r < 8 -> c < 16 ->
         In (int_to_bin (Z.of_nat r) 3, int_to_bin (Z.of_nat c) 4)
            all_selections)
   /\ exists log,
        Pins.written (pins w') = Pins.written (pins w) ++ log
        /\ map (fun s => (Some (fst s), Some (snd s)))
               (latched (Pins.level (pins w)) log) = all_selections)
  /\ (globals w' = globals (SoftwareScan.process b row column w)
      /\ clock_reads w' = clock_reads (SoftwareScan.process b row column w))
  /\ keys 3 7 = Some (Single (Code Keycode.P))
  /\ (row = 3 -> column = 7 ->
      globals w' =
        input (Single (Code Keycode.P)) false (monotonic b (clock_reads w))
          (print (RowColumn 3 7 (Some (Single (Code Keycode.P)))) (globals w))
      /\ stdout (globals w') =
           stdout (globals w) ++ [RowColumn 3 7 (Some (Single (Code Keycode.P)))])
  /\ keys 0 5 = None
  /\ (row = 0 -> column = 5 ->
      globals w' = print (RowColumn 0 5 None) (globals w)
      /\ input_processor (globals w') = input_processor (globals w)
      /\ bbc_keyboard (globals w') = bbc_keyboard (globals w)
      /\ clock_reads w' = clock_reads w).
Proof.
  intros Hr Hc Hb w'.
  assert (E : globals w' = globals (SoftwareScan.process b row column w)
              /\ clock_reads w' = clock_reads (SoftwareScan.process b row column w)).
  { unfold w'.
    rewrite (@check_ext b _ bbc_ss w (only_closed_value Hb) (fun n => eq_refl)).
    now apply sweep_single_contact. }
  split; [|split; [exact E | split; [reflexivity | split; [|split; [reflexivity|]]]]].
  - split; [reflexivity | split; [reflexivity | split; [reflexivity | split]]].
    + apply all_selections_complete.
    + exists (sweep_log bbc_ss). split; [apply written_check | apply latched_sweep].
  - intros -> ->. destruct E as [E _]. rewrite E.
    split; [reflexivity|].
    change (globals (SoftwareScan.process b 3 7 w))
      with (input (Single (Code Keycode.P)) false (monotonic b (clock_reads w))
              (print (RowColumn 3 7 (Some (Single (Code Keycode.P))))
                     (globals w))).
    now rewrite stdout_input_unshifted.
  - intros -> ->. destruct E as [E1 E2]. rewrite E1, E2. repeat split.
Qed.

(** ** The interrupt-assisted scan *)

(** C6, as the code has it.  On a tick with the interrupt line high, the
    scanner lowers the strobe and, without raising it, calls the sweep;
    it calls it once, and not the absence function; then it sets the
    absence counter to 0, pulses the strobe (low, high) and aligns the
    caps-lock LED.  With the software sweep as trigger the assignments to
    the pins are: strobe low, those of the sweep, strobe low, strobe high,
    LED. *)
Theorem strobe_lowered_then_one_sweep
    (b : board) (trigger_func absence_func : world -> world) (w : world) :
  tripped b HardwareScan.interrupt w = true ->
  let handed := with_pins (Pins.write GP1 false (pins w)) w in
  let swept := trigger_func handed in
  let w' := HardwareScan.check b trigger_func absence_func w in
  let led := (GP15, negb (HIDKeyboard.led_caps_lock (bbc_keyboard (globals swept)))) in
  (Pins.written (pins handed) = Pins.written (pins w) ++ [(GP1, false)]
   /\ Pins.level (pins handed) GP1 = false
   /\ globals handed = globals w)
  /\ w' = align_leds
            (with_pins (Pins.write GP1 true (Pins.write GP1 false (pins swept)))
                       (with_absence_count 0 swept))
  /\ absence_count w' = 0
  /\ Pins.written (pins w') =
       Pins.written (pins swept) ++ [(GP1, false); (GP1, true); led]
  /\ Pins.written
       (pins (HardwareScan.check b (SoftwareScan.check b bbc_ss) absence_func w))
     = Pins.written (pins w) ++ [(GP1, false)] ++ sweep_log bbc_ss
         ++ [(GP1, false); (GP1, true);
             (GP15, negb (HIDKeyboard.led_caps_lock
                            (bbc_keyboard
                               (globals (SoftwareScan.check b bbc_ss handed)))))].
Proof.
  intros T handed swept w' led.
  assert (E : forall f, HardwareScan.check b f absence_func w =
              align_leds
                (with_pins (Pins.write GP1 true (Pins.write GP1 false (pins (f handed))))
                           (with_absence_count 0 (f handed)))).
  { intros f. unfold HardwareScan.check. rewrite T. reflexivity. }
  assert (W : forall f, Pins.written (pins (HardwareScan.check b f absence_func w)) =
              Pins.written (pins (f handed)) ++
                [(GP1, false); (GP1, true);
                 (GP15, negb (HIDKeyboard.led_caps_lock
                                (bbc_keyboard (globals (f handed)))))]).
  { intros f. rewrite E. unfold align_leds, Output.set. cbn [globals with_pins
      with_absence_count pins].
    destruct (HIDKeyboard.led_caps_lock (bbc_keyboard (globals (f handed))));
      simpl; rewrite <- ?app_assoc; reflexivity. }
  split; [repeat split | split; [apply E | split; [|split]]].
  - unfold w'. rewrite E. reflexivity.
  - apply W.
  - rewrite W, written_check. cbn [Pins.written Pins.write pins with_pins handed].
    now rewrite <- !app_assoc.
Qed.

(** ** The break button *)

(** What [check] of the break button does is decided by the level read on
    its pin; the debouncer is updated and not consulted. *)
Lemma break_button_reads_raw_pin (b : board) (w : world) (d : Debouncer.t) :
  globals (BreakButtonProcessor.check b (with_switch d w)) =
  globals (BreakButtonProcessor.check b w)
  /\ globals (BreakButtonProcessor.check b w) =
     if value b BreakButtonProcessor.input (Pins.level (pins w))
     then globals w
     else input BreakButtonProcessor.label
            (fst (SoftwareScan.check_shift b w))
            (monotonic b (S (clock_reads w))) (globals w).
Proof.
  unfold BreakButtonProcessor.check, BreakButtonProcessor.switch_update, tripped.
  cbn [time_monotonic with_switch pins globals clock_reads].
  destruct (value b BreakButtonProcessor.input (Pins.level (pins w)));
    split; reflexivity.
Qed.

(** C7, at inputs where it fails.  The break line read low for the first
    time: the debounced level is
    still high, the button counts as released, and BACKSPACE is passed to
    [input] all the same.  And the other way round: a line read high while
    the debounced level is low passes nothing. *)
Theorem break_button_ignores_debounced_level :
  let w1 := BreakButtonProcessor.check break_line_low power_on in
  let pressed := with_switch (Debouncer.init false) power_on in
  let w2 := BreakButtonProcessor.check break_line_high pressed in
  (Debouncer.debounced (switch power_on) = true
   /\ Debouncer.debounced (switch w1) = true
   /\ HIDKeyboard.sent (bbc_keyboard (globals w1)) = [Press Keycode.BACKSPACE])
  /\ (Debouncer.debounced (switch pressed) = false
      /\ Debouncer.debounced (switch w2) = false
      /\ HIDKeyboard.sent (bbc_keyboard (globals w2)) = []).
Proof. repeat split. Qed.

(** * Further properties *)

(** ** [int_to_bin] outside the range of its width *)

(** X1.  For a negative number [int_to_bin] raises: the formatted string
    starts with a minus sign, which [int] refuses. *)
Theorem int_to_bin_negative_raises (v : Z) (max : nat) :
  (v < 0)%Z -> int_to_bin v max = None.
Proof.
  intros Hv. destruct v as [|p|p]; [lia | lia | reflexivity].
Qed.

Lemma int_to_bin_negative_raises_witness :
  (-3 < 0)%Z /\ int_to_bin (-3) 4 = None.
Proof.
  assert (H : (-3 < 0)%Z) by lia.
  split; [exact H | exact (@int_to_bin_negative_raises (-3) 4 H)].
Defined.

Lemma pos_lt_pow_length (p : positive) :
  (Zpos p < 2 ^ Z.of_nat (length (bits_of_pos p)))%Z.
Proof.
  induction p as [p IH|p IH|]; cbn [bits_of_pos];
    [| |simpl; lia];
    rewrite length_app, Nat.add_comm; cbn [length Nat.add];
    rewrite Nat2Z.inj_succ, Z.pow_succ_r by lia; lia.
Qed.

(** X2.  For a number that is not negative [int_to_bin] never cuts digits
    and never loses the value, whatever the width: the list stands for the
    number, has at least [max] and at least one element, and is longer than
    [max] when the number does not fit in [max] bits. *)
Theorem int_to_bin_keeps_every_digit (v : Z) (max : nat) :
  (0 <= v)%Z ->
  exists bits,
    int_to_bin v max = Some bits
    /\ big_endian bits = v
    /\ max <= length bits
    /\ 1 <= length bits
    /\ ((2 ^ Z.of_nat max <= v)%Z -> max < length bits).
Proof.
  intros Hv. exists (repeat false (max - length (bits_of_Z v)) ++ bits_of_Z v).
  assert (L1 : 1 <= length (bits_of_Z v)).
  { destruct v as [|p|p]; simpl; [lia | | lia].
    destruct p; simpl; rewrite ?length_app; simpl; lia. }
  split; [now apply int_to_bin_nonneg|].
  split; [rewrite big_endian_zeros; now apply big_endian_bits_of_Z|].
  rewrite length_app, repeat_length.
  split; [lia | split; [lia|]].
  intros Hbig.
  assert (max < length (bits_of_Z v)); [|lia].
  destruct v as [|p|p]; [|simpl|lia].
  - assert (0 < 2 ^ Z.of_nat max)%Z by (apply Z.pow_pos_nonneg; lia). lia.
  - pose proof (pos_lt_pow_length p) as Hp.
    destruct (Nat.lt_ge_cases max (length (bits_of_pos p))) as [|Hle]; [assumption|].
    assert (2 ^ Z.of_nat (length (bits_of_pos p)) <= 2 ^ Z.of_nat max)%Z
      by (apply Z.pow_le_mono_r; lia).
    lia.
Qed.

(** Nine does not fit on three lines: four booleans come back. *)
Lemma int_to_bin_keeps_every_digit_witness :
  (0 <= 9)%Z /\
  exists bits, int_to_bin 9 3 = Some bits /\ big_endian bits = 9%Z
               /\ 3 <= length bits /\ 1 <= length bits
               /\ ((2 ^ Z.of_nat 3 <= 9)%Z -> 3 < length bits).
Proof.
  assert (H : (0 <= 9)%Z) by lia.
  split; [exact H | exact (@int_to_bin_keeps_every_digit 9 3 H)].
Defined.

(** X3.  On lines of one width two different numbers never get the same
    encoding. *)
Theorem int_to_bin_injective (v v' : Z) (max : nat) :
  (0 <= v)%Z -> (0 <= v')%Z ->
  int_to_bin v max = int_to_bin v' max -> v = v'.
Proof.
  intros Hv Hv' E.
  destruct (int_to_bin_keeps_every_digit max Hv) as [bits [B [V _]]].
  destruct (int_to_bin_keeps_every_digit max Hv') as [bits' [B' [V' _]]].
  rewrite B, B' in E. injection E as ->. congruence.
Qed.

Lemma int_to_bin_injective_witness :
  (0 <= 5)%Z /\ (0 <= 2 + 3)%Z /\ int_to_bin 5 3 = int_to_bin (2 + 3) 3
  /\ 5%Z = (2 + 3)%Z.
Proof.
  assert (H : (0 <= 5)%Z) by lia.
  assert (H' : (0 <= 2 + 3)%Z) by lia.
  assert (E : int_to_bin 5 3 = int_to_bin (2 + 3) 3) by reflexivity.
  split; [exact H | split; [exact H' | split; [exact E|]]].
  exact (@int_to_bin_injective 5 (2 + 3) 3 H H' E).
Defined.

(** ** What the sink sees over any sequence of calls *)

Lemma shift_held_snoc (events : list hid_event) (ev : hid_event) :
  shift_held (events ++ [ev]) =
  match ev with
  | Press c => if (c =? Keycode.SHIFT)%Z then true else shift_held events
  | Release c => if (c =? Keycode.SHIFT)%Z then false else shift_held events
  end.
Proof. unfold shift_held. now rewrite fold_left_app. Qed.

Lemma tracked_key_press (c : Z) (kb : HIDKeyboard.t) :
  shift_tracked kb -> shift_tracked (HIDKeyboard.key_press c kb).
Proof.
  unfold shift_tracked. intros H. simpl. rewrite shift_held_snoc.
  now destruct (c =? Keycode.SHIFT)%Z.
Qed.

Lemma tracked_key_release (c : Z) (kb : HIDKeyboard.t) :
  shift_tracked kb -> shift_tracked (HIDKeyboard.key_release c kb).
Proof.
  unfold shift_tracked. intros H. simpl. rewrite shift_held_snoc.
  now destruct (c =? Keycode.SHIFT)%Z.
Qed.

Lemma tracked_key_down (k : key) (esc : bool) (kb : HIDKeyboard.t) :
  shift_tracked kb -> shift_tracked (key_down k esc kb).
Proof.
  intros H. unfold key_down.
  destruct esc, k; cbv iota;
    repeat first [apply tracked_key_press | apply tracked_key_release];
    exact H.
Qed.

Lemma tracked_key_up (k : key) (kb : HIDKeyboard.t) :
  shift_tracked kb -> shift_tracked (key_up k kb).
Proof.
  intros H. destruct k; simpl;
    repeat apply tracked_key_release; exact H.
Qed.

(** Invariants of [step] are invariants of [run]. *)
Lemma run_invariant (P : env -> Prop) :
  (forall e c, P e -> P (step e c)) ->
  forall calls e, P e -> P (run calls e).
Proof.
  intros Hstep calls. induction calls as [|c calls IH]; intros e He; simpl.
  - exact He.
  - apply IH. now apply Hstep.
Qed.

(** A property kept by [input], [no_input] and the body of the loop of
    [check], for items of the queue, is kept by [step]. *)
Lemma step_invariant (P : env -> Prop) :
  (forall value shift now e, P e -> P (input value shift now e)) ->
  (forall e, P e -> P (no_input e)) ->
  (forall t k v e, In (k, v) (queue (input_processor e)) ->
                   P e -> P (check_body t k v e)) ->
  forall e c, P e -> P (step e c).
Proof.
  intros Hi Hn Hc e [value shift now| |t] He; simpl; auto.
  destruct (check t e) as [o|] eqn:C; [|exact He].
  apply (@check_invariant P t e o); auto.
Qed.

Lemma keyboard_input (value : keyspec) (shift : bool) (now : float) (e : env) :
  bbc_keyboard (input value shift now e) = bbc_keyboard e \/
  bbc_keyboard (input value shift now e) =
    key_down (fst (resolve value (bbc_keyboard e)))
             (snd (resolve value (bbc_keyboard e))) (bbc_keyboard e).
Proof.
  destruct (pending (fst (resolve value (bbc_keyboard e))) e) eqn:E.
  - left. now apply input_pending.
  - right. now apply input_not_pending.
Qed.

Lemma keyboard_check_body (t : float) (k : key) (v : float) (e : env) :
  bbc_keyboard (check_body t k v e) =
  if expired t k v (input_processor e)
  then key_up k (bbc_keyboard e) else bbc_keyboard e.
Proof.
  unfold check_body. now destruct (expired t k v (input_processor e)).
Qed.

(** X4.  Over any sequence of calls of [input], [no_input] and [check] from
    the constructors, [shift_down] is true exactly when the last event
    about SHIFT sent to the sink is a press. *)
Theorem shift_down_tracks_sink
    (calls : list call) (led : bool) (delay short_delay : float) :
  let kb := bbc_keyboard (run calls (start led delay short_delay)) in
  HIDKeyboard.shift_down kb = shift_held (HIDKeyboard.sent kb).
Proof.
  apply (@run_invariant (fun e => shift_tracked (bbc_keyboard e)));
    [|reflexivity].
  apply step_invariant.
  - intros value shift now e H.
    destruct (keyboard_input value shift now e) as [-> | ->];
      auto using tracked_key_down.
  - auto.
  - intros t k v e _ H. rewrite keyboard_check_body.
    destruct (expired t k v (input_processor e)); auto using tracked_key_up.
Qed.

Lemma released_after_press_snoc_press (events : list hid_event) (c : Z) :
  forall seen,
  released_after_press seen (events ++ [Press c]) =
  released_after_press seen events.
Proof.
  induction events as [|[d|d] events IH]; intros seen; simpl;
    [reflexivity | apply IH | now rewrite IH].
Qed.

Lemma released_after_press_snoc_release (events : list hid_event) (c : Z) :
  forall seen,
  In c seen \/ In (Press c) events ->
  released_after_press seen events = true ->
  released_after_press seen (events ++ [Release c]) = true.
Proof.
  induction events as [|[d|d] events IH]; intros seen Hc H; simpl in *.
  - destruct Hc as [Hc|[]]. rewrite andb_true_r.
    apply existsb_exists. exists c. split; [assumption | apply Z.eqb_refl].
  - apply IH; [|assumption].
    destruct Hc as [Hc|[Hc|Hc]]; [left; now right | | now right].
    injection Hc as ->. left. now left.
  - apply andb_true_iff in H. destruct H as [H1 H2]. rewrite H1. simpl.
    apply IH; [|assumption].
    destruct Hc as [Hc|[Hc|Hc]]; [now left | discriminate | now right].
Qed.

Lemma accounts_key_press (c : Z) (kb : HIDKeyboard.t) :
  sink_accounts kb -> sink_accounts (HIDKeyboard.key_press c kb).
Proof.
  intros [H1 H2]. split; simpl.
  - now rewrite released_after_press_snoc_press.
  - rewrite in_app_iff. destruct (c =? Keycode.SHIFT)%Z eqn:E.
    + apply Z.eqb_eq in E. subst c. intros _. right. now left.
    + intros H. left. auto.
Qed.

Lemma accounts_key_release (c : Z) (kb : HIDKeyboard.t) :
  In (Press c) (HIDKeyboard.sent kb) ->
  sink_accounts kb -> sink_accounts (HIDKeyboard.key_release c kb).
Proof.
  intros Hc [H1 H2]. split; simpl.
  - apply released_after_press_snoc_release; auto.
  - rewrite in_app_iff. destruct (c =? Keycode.SHIFT)%Z.
    + discriminate.
    + intros H. left. auto.
Qed.

Lemma sent_key_down (k : key) (esc : bool) (kb : HIDKeyboard.t) :
  exists events,
    HIDKeyboard.sent (key_down k esc kb) = HIDKeyboard.sent kb ++ events
    /\ forall c, In c (codes k) -> In (Press c) events.
Proof.
  destruct esc.
  - eexists. split; [apply sent_key_down_escape|].
    destruct k; simpl; intuition (subst; auto).
  - eexists. split; [apply sent_key_down_plain|].
    destruct k; simpl; intuition (subst; auto).
Qed.

Lemma accounts_key_down (k : key) (esc : bool) (kb : HIDKeyboard.t) :
  (esc = true -> HIDKeyboard.shift_down kb = true) ->
  sink_accounts kb -> sink_accounts (key_down k esc kb).
Proof.
  intros Hesc H. unfold key_down.
  assert (R : esc = true -> sink_accounts (HIDKeyboard.key_release Keycode.SHIFT kb)).
  { intros E. apply accounts_key_release; [|assumption].
    destruct H as [_ H]. auto. }
  destruct esc; [specialize (R eq_refl)|]; destruct k; cbv iota;
    repeat first
      [ apply accounts_key_press
      | apply accounts_key_release;
        [simpl; rewrite ?in_app_iff; simpl; now auto 6|] ];
    assumption.
Qed.

Lemma accounts_key_up (k : key) (kb : HIDKeyboard.t) :
  (forall c, In c (codes k) -> In (Press c) (HIDKeyboard.sent kb)) ->
  sink_accounts kb -> sink_accounts (key_up k kb).
Proof.
  intros Hk H. destruct k as [c|c]; simpl in *.
  - apply accounts_key_release; auto.
  - apply accounts_key_release;
      [simpl; rewrite in_app_iff; left; auto|].
    apply accounts_key_release; auto.
Qed.

Lemma resolve_escape (value : keyspec) (kb : HIDKeyboard.t) :
  snd (resolve value kb) = true -> HIDKeyboard.shift_down kb = true.
Proof.
  destruct value as [k|k alt]; simpl; [discriminate|].
  now destruct (HIDKeyboard.shift_down kb).
Qed.

Lemma accounts_input (value : keyspec) (shift : bool) (now : float) (e : env) :
  sink_accounts (bbc_keyboard e) /\ pending_pressed e ->
  sink_accounts (bbc_keyboard (input value shift now e))
  /\ pending_pressed (input value shift now e).
Proof.
  intros [HK HP]. unfold pending_pressed in *.
  destruct (pending (fst (resolve value (bbc_keyboard e))) e) eqn:E.
  - destruct (input_pending value shift now e E) as [-> ->]. auto.
  - destruct (input_not_pending value shift now e E) as [-> ->]. split.
    + apply accounts_key_down; [apply resolve_escape | exact HK].
    + destruct (sent_key_down (fst (resolve value (bbc_keyboard e)))
                  (snd (resolve value (bbc_keyboard e))) (bbc_keyboard e))
        as [events [-> Hev]].
      intros k c Hk Hc. unfold Dict.keys in Hk. rewrite map_app in Hk.
      apply in_app_iff. apply in_app_iff in Hk.
      destruct Hk as [Hk|[Hk|[]]]; [left; eauto|].
      simpl in Hk. subst k. right. auto.
Qed.

Lemma accounts_check_body (t : float) (k : key) (v : float) (e : env) :
  In (k, v) (queue (input_processor e)) ->
  sink_accounts (bbc_keyboard e) /\ pending_pressed e ->
  sink_accounts (bbc_keyboard (check_body t k v e))
  /\ pending_pressed (check_body t k v e).
Proof.
  intros Hin [HK HP]. unfold pending_pressed in *. unfold check_body.
  destruct (expired t k v (input_processor e)); [|auto]. simpl.
  assert (Hk : In k (Dict.keys (queue (input_processor e))))
    by (unfold Dict.keys; apply in_map_iff; now exists (k, v)).
  split.
  - apply accounts_key_up; eauto.
  - intros k' c Hk' Hc. rewrite sent_key_up. apply in_app_iff. left.
    rewrite keys_delitem in Hk'. apply filter_In in Hk'. destruct Hk'. eauto.
Qed.

(** X5.  Over any sequence of calls of [input], [no_input] and [check] from
    the constructors, the sink is never sent a release of a code it has not
    been sent a press of before, and the codes of every pending key have
    been pressed. *)
Theorem no_release_without_press
    (calls : list call) (led : bool) (delay short_delay : float) :
  let e := run calls (start led delay short_delay) in
  released_after_press [] (HIDKeyboard.sent (bbc_keyboard e)) = true
  /\ forall k c, pending k e = true -> In c (codes k) ->
                 In (Press c) (HIDKeyboard.sent (bbc_keyboard e)).
Proof.
  assert (H : sink_accounts (bbc_keyboard (run calls (start led delay short_delay)))
              /\ pending_pressed (run calls (start led delay short_delay))).
  { apply (@run_invariant
             (fun e => sink_accounts (bbc_keyboard e) /\ pending_pressed e)).
    - apply step_invariant.
      + intros. now apply accounts_input.
      + auto.
      + intros. now apply accounts_check_body.
    - split; [split; [reflexivity | discriminate] | intros k c []]. }
  destruct H as [[H1 _] H2]. split; [exact H1|].
  intros k c Hk. apply H2. now apply contains_In.
Qed.

(** ** Frames of [input] and [check] *)

Lemma contains_append (V : Type) (k k' : key) (v : V) (d : Dict.t V) :
  Dict.contains k (d ++ [(k', v)]) = Dict.contains k d || key_eqb k' k.
Proof.
  unfold Dict.contains. rewrite existsb_app. simpl. now rewrite orb_false_r.
Qed.

(** X6.  [input] never disturbs what is pending: a key that is pending
    stays pending with the timestamp it had, whatever is observed; and
    [recent_release], the two delays and [short_queue] are left alone. *)
Theorem input_keeps_pending
    (value : keyspec) (shift : bool) (now : float) (e : env) (k : key) :
  pending k e = true ->
  let e' := input value shift now e in
  pending k e' = true
  /\ observed_at k e' = observed_at k e
  /\ recent_release (input_processor e') = recent_release (input_processor e)
  /\ delay (input_processor e') = delay (input_processor e)
  /\ short_delay (input_processor e') = short_delay (input_processor e)
  /\ short_queue (input_processor e') = short_queue (input_processor e).
Proof.
  intros Hk e'.
  assert (Hrest : recent_release (input_processor e') = recent_release (input_processor e)
                  /\ delay (input_processor e') = delay (input_processor e)
                  /\ short_delay (input_processor e') = short_delay (input_processor e)
                  /\ short_queue (input_processor e') = short_queue (input_processor e)).
  { unfold e', input. simpl. destruct (resolve value (bbc_keyboard e)) as [r esc].
    destruct (shift && is_code r Keycode.BACKSPACE);
      destruct (Dict.contains r (queue (input_processor e))); simpl; auto. }
  unfold pending, observed_at in *.
  destruct (pending (fst (resolve value (bbc_keyboard e))) e) eqn:E.
  - destruct (input_pending value shift now e E) as [_ Hq]. fold e' in Hq.
    rewrite Hq. auto.
  - destruct (input_not_pending value shift now e E) as [_ Hq]. fold e' in Hq.
    rewrite Hq. split; [|split; [|exact Hrest]].
    + rewrite contains_append, Hk. reflexivity.
    + apply get_append_other. intros ->. unfold pending in E. congruence.
Qed.

(** X7.  [check] only releases and only removes: when the call has ended,
    the sink has received nothing but releases, nothing was printed, every
    key still pending was pending before with the same timestamp, and the
    delays are as before; and a call that finds no key expired changes
    nothing. *)
Theorem check_only_releases (t : float) (e : env) :
  exists o,
    check t e = Some o
    /\ (exists released,
          HIDKeyboard.sent (bbc_keyboard (final o)) =
            HIDKeyboard.sent (bbc_keyboard e) ++ released
          /\ forallb is_release released = true)
    /\ stdout (final o) = stdout e
    /\ (forall k, pending k (final o) = true ->
                  pending k e = true
                  /\ observed_at k (final o) = observed_at k e)
    /\ delay (input_processor (final o)) = delay (input_processor e)
    /\ short_delay (input_processor (final o)) = short_delay (input_processor e)
    /\ ((forall k v, In (k, v) (queue (input_processor e)) ->
                     expired t k v (input_processor e) = false) ->
        final o = e).
Proof.
  destruct (check_returns t e) as [e' C]. exists (Returned e').
  split; [exact C|].
  assert (I : (exists released,
                 HIDKeyboard.sent (bbc_keyboard e') =
                   HIDKeyboard.sent (bbc_keyboard e) ++ released
                 /\ forallb is_release released = true)
              /\ stdout e' = stdout e
              /\ (forall k, pending k e' = true ->
                            pending k e = true
                            /\ observed_at k e' = observed_at k e)
              /\ delay (input_processor e') = delay (input_processor e)
              /\ short_delay (input_processor e') = short_delay (input_processor e)).
  { apply (@check_invariant
             (fun x => (exists released,
                          HIDKeyboard.sent (bbc_keyboard x) =
                            HIDKeyboard.sent (bbc_keyboard e) ++ released
                          /\ forallb is_release released = true)
                       /\ stdout x = stdout e
                       /\ (forall k, pending k x = true ->
                                     pending k e = true
                                     /\ observed_at k x = observed_at k e)
                       /\ delay (input_processor x) = delay (input_processor e)
                       /\ short_delay (input_processor x) =
                          short_delay (input_processor e))
             t e (Returned e')); [| |exact C].
    - intros k v x _ [[rel [Hs Hr]] [Ho [Hp [Hd Hsd]]]]. unfold check_body.
      destruct (expired t k v (input_processor x)); [|eauto 10]. simpl.
      split; [|split; [exact Ho | split; [|split; assumption]]].
      + exists (rel ++ release_sequence k). rewrite sent_key_up, Hs, app_assoc.
        split; [reflexivity|]. rewrite forallb_app, Hr. now destruct k.
      + intros k' Hk'. unfold pending, observed_at in *. simpl in *.
        assert (Hne : k' <> k).
        { intros ->. now rewrite contains_delitem in Hk'. }
        rewrite contains_delitem_other in Hk' by exact Hne.
        rewrite get_delitem_other by exact Hne. now apply Hp.
    - split; [exists []; now rewrite app_nil_r | auto]. }
  destruct I as [I1 [I2 [I3 [I4 I5]]]]. simpl.
  split; [exact I1 | split; [exact I2 | split; [exact I3 | split;
    [exact I4 | split; [exact I5|]]]]].
  intros Hq. rewrite (check_quiet t e Hq) in C. now injection C as <-.
Qed.

(** ** One observation, one press, one release *)

Lemma find_app_none (A : Type) (f : A -> bool) (l l' : list A) :
  (forall x, In x l -> f x = false) -> find f (l ++ l') = find f l'.
Proof.
  induction l as [|a l IH]; intros H; simpl; [reflexivity|].
  rewrite (H a) by now left. apply IH. intros x Hx. apply H. now right.
Qed.

Lemma delitem_append_new (V : Type) (k : key) (v : V) (d : Dict.t V) :
  Dict.contains k d = false -> Dict.delitem k (d ++ [(k, v)]) = d.
Proof.
  unfold Dict.delitem, Dict.contains. intros H. rewrite filter_app. simpl.
  rewrite key_eqb_refl. simpl. rewrite app_nil_r.
  induction d as [|[k0 v0] d IH]; simpl in *; [reflexivity|].
  apply orb_false_iff in H. destruct H as [H1 H2]. rewrite H1. simpl.
  now rewrite IH.
Qed.

(** X8.  A key observed once, when it is not pending, and found expired by
    the next [check] (no older pending key having expired) is pressed once
    and released once: the sink receives the down-event at the observation
    and the key's release sequence at the check, the queue is as before the
    observation, and the key is [recent_release]. *)
Theorem one_press_one_release
    (value : keyspec) (shift : bool) (now t : float) (e : env) :
  let k := fst (resolve value (bbc_keyboard e)) in
  let e1 := input value shift now e in
  pending k e = false ->
  (forall k' v', In (k', v') (queue (input_processor e)) ->
                 expired t k' v' (input_processor e1) = false) ->
  expired t k now (input_processor e1) = true ->
  exists o,
    check t e1 = Some o
    /\ HIDKeyboard.sent (bbc_keyboard e1) =
         HIDKeyboard.sent (bbc_keyboard e) ++
           (if snd (resolve value (bbc_keyboard e))
            then [Release Keycode.SHIFT] ++ own_press_sequence k
                   ++ [Press Keycode.SHIFT]
            else own_press_sequence k)
    /\ HIDKeyboard.sent (bbc_keyboard (final o)) =
         HIDKeyboard.sent (bbc_keyboard e1) ++ release_sequence k
    /\ queue (input_processor (final o)) = queue (input_processor e)
    /\ recent_release (input_processor (final o)) = Some k.
Proof.
  intros k e1 Hnew Hold Hexp.
  destruct (input_not_pending value shift now e Hnew) as [Hkb Hq].
  fold e1 k in Hkb, Hq.
  assert (L : forall (pre kept : list (key * float)) (fuel : nat),
            queue (input_processor e1) = kept ++ pre ++ [(k, now)] ->
            (forall i, In i pre ->
                       expired t (fst i) (snd i) (input_processor e1) = false) ->
            length pre + 1 < fuel ->
            check_loop fuel t {| Dict.ahead := length pre + 1 |} e1 =
            Some (Returned (check_body t k now e1))).
  { induction pre as [|[k0 v0] pre IH]; intros kept fuel Hk Hp Hf;
      (destruct fuel as [|fuel]; [simpl in Hf; lia|]).
    - cbn [check_loop length Nat.add]. unfold Dict.next at 1.
      cbn [Dict.ahead]. rewrite Hk.
      replace (length (kept ++ [] ++ [(k, now)]) - 1) with (length kept)
        by (rewrite !length_app; simpl; lia).
      rewrite nth_error_app2, Nat.sub_diag by lia. cbn [app nth_error].
      destruct fuel as [|fuel]; [simpl in Hf; lia | reflexivity].
    - cbn [check_loop length Nat.add]. unfold Dict.next at 1.
      cbn [Dict.ahead]. rewrite Hk.
      replace (length (kept ++ ((k0, v0) :: pre) ++ [(k, now)])
               - S (length pre + 1)) with (length kept)
        by (rewrite !length_app; simpl; lia).
      rewrite nth_error_app2, Nat.sub_diag by lia. cbn [app nth_error].
      pose proof (Hp (k0, v0) (or_introl eq_refl)) as Hk0. simpl in Hk0.
      rewrite (check_body_keeps _ _ _ _ Hk0).
      apply (IH (kept ++ [(k0, v0)])).
      + rewrite Hk, <- app_assoc. reflexivity.
      + intros i Hi. apply Hp. now right.
      + simpl in Hf. lia. }
  assert (C : check t e1 = Some (Returned (check_body t k now e1))).
  { unfold check, Dict.iter. rewrite Hq at 1 2. rewrite length_app.
    cbn [length].
    apply (L (queue (input_processor e)) []).
    - rewrite Hq. reflexivity.
    - intros [k' v'] Hin. simpl. eauto.
    - lia. }
  rewrite C. eexists. split; [reflexivity|].
  unfold check_body. rewrite Hexp. simpl.
  split; [|split; [apply sent_key_up | split; [|reflexivity]]].
  - rewrite Hkb. destruct (snd (resolve value (bbc_keyboard e)));
      [apply sent_key_down_escape | apply sent_key_down_plain].
  - rewrite Hq. now apply delitem_append_new.
Qed.

(** ** [Shifted] keys and the modifier *)

(** X9.  The down-event of a [Shifted] key that is not pending leaves
    [shift_down] false whatever it was: if SHIFT was held, the sink has
    been told it is released, and an [AltShift] key observed next resolves
    to its primary key without escape.  The up-event of a [Shifted] key
    leaves [shift_down] false as well. *)
Theorem shifted_key_drops_modifier
    (c : Z) (shift : bool) (now : float) (e : env) :
  pending (Shifted c) e = false ->
  let e' := input (Single (Shifted c)) shift now e in
  HIDKeyboard.sent (bbc_keyboard e') =
    HIDKeyboard.sent (bbc_keyboard e) ++
      [Press Keycode.SHIFT; Press c; Release Keycode.SHIFT]
  /\ HIDKeyboard.shift_down (bbc_keyboard e') = false
  /\ (forall k alt_key, resolve (AltShift k alt_key) (bbc_keyboard e') = (k, false))
  /\ (forall kb, HIDKeyboard.shift_down (key_up (Shifted c) kb) = false).
Proof.
  intros Hnew e'.
  destruct (@input_not_pending (Single (Shifted c)) shift now e Hnew) as [Hkb _].
  fold e' in Hkb. simpl in Hkb.
  assert (S : HIDKeyboard.shift_down (bbc_keyboard e') = false)
    by (now rewrite Hkb).
  split; [rewrite Hkb; apply (sent_key_down_plain (Shifted c))|].
  split; [exact S | split].
  - intros k alt_key. simpl. now rewrite S.
  - intros kb. simpl. now destruct (c =? Keycode.SHIFT)%Z.
Qed.

(** ** Every tick of the interrupt-assisted scan *)

(** X10.  Whatever the branch taken and whatever the two functions do, a
    call of [HardwareScan.check] ends with the strobe pulsed low then high
    and the caps-lock LED pin set to the opposite of the host's LED report
    (the LED is wired active low); the strobe is left high and the absence
    counter is at most 100. *)
Theorem hardware_tick_ends_with_pulse
    (b : board) (trigger_func absence_func : world -> world) (w : world) :
  let w' := HardwareScan.check b trigger_func absence_func w in
  let led := HIDKeyboard.led_caps_lock (bbc_keyboard (globals w')) in
  (exists log,
      Pins.written (pins w') =
        log ++ [(GP1, false); (GP1, true); (GP15, negb led)])
  /\ Pins.level (pins w') GP1 = true
  /\ Pins.level (pins w') GP15 = negb led
  /\ absence_count w' <= 100.
Proof.
  unfold HardwareScan.check.
  set (w1 := if tripped b HardwareScan.interrupt w then _ else _).
  assert (A : absence_count w1 <= 100).
  { unfold w1. destruct (tripped b HardwareScan.interrupt w); simpl; [lia|].
    destruct (100 <? absence_count w + 1) eqn:E; simpl; [lia|].
    apply Nat.ltb_ge in E. exact E. }
  clearbody w1. unfold align_leds, Output.set. simpl.
  destruct (HIDKeyboard.led_caps_lock (bbc_keyboard (globals w1))); simpl;
    (split; [exists (Pins.written (pins w1)); now rewrite <- !app_assoc | auto]).
Qed.

(** ** Idle ticks *)

Lemma hardware_ticks_S (b : board) (n : nat) (w : world) :
  hardware_ticks b (S n) w =
  HardwareScan.check b (SoftwareScan.check b bbc_ss) SoftwareScan.no_input
                     (hardware_ticks b n w).
Proof. reflexivity. Qed.

Lemma idle_tick_counts (b : board) (f g : world -> world) (w : world) :
  tripped b HardwareScan.interrupt w = false ->
  absence_count w < 100 ->
  let w' := HardwareScan.check b f g w in
  globals w' = globals w /\ clock_reads w' = clock_reads w
  /\ absence_count w' = S (absence_count w).
Proof.
  intros T H. unfold HardwareScan.check. rewrite T. simpl.
  replace (100 <? absence_count w + 1) with false
    by (symmetry; apply Nat.ltb_ge; lia).
  simpl. repeat split. lia.
Qed.

Lemma idle_tick_fires (b : board) (f : world -> world) (w : world) :
  tripped b HardwareScan.interrupt w = false ->
  absence_count w = 100 ->
  let w' := HardwareScan.check b f SoftwareScan.no_input w in
  globals w' = no_input (globals w) /\ clock_reads w' = clock_reads w
  /\ absence_count w' = 0.
Proof.
  intros T H. unfold HardwareScan.check. rewrite T. simpl. rewrite H.
  repeat split.
Qed.

(** X11.  With the interrupt line low, the scanner counts the ticks: from a
    counter at 0 the first 100 ticks leave keyboard, processor and clock
    alone, and the 101st calls [no_input], which sets the flag and nothing
    else, and puts the counter back to 0.  No sweep is made meanwhile. *)
Theorem no_input_on_101st_idle_tick (b : board) (w : world) :
  (forall lv, value b HardwareScan.interrupt lv = false) ->
  absence_count w = 0 ->
  (forall n, n <= 100 ->
     globals (hardware_ticks b n w) = globals w
     /\ clock_reads (hardware_ticks b n w) = clock_reads w
     /\ absence_count (hardware_ticks b n w) = n)
  /\ globals (hardware_ticks b 101 w) = no_input (globals w)
  /\ no_input_registered
       (input_processor (globals (hardware_ticks b 101 w))) = true
  /\ absence_count (hardware_ticks b 101 w) = 0.
Proof.
  intros Hb H0.
  assert (T : forall w0, tripped b HardwareScan.interrupt w0 = false)
    by (intros w0; apply Hb).
  assert (I : forall n, n <= 100 ->
     globals (hardware_ticks b n w) = globals w
     /\ clock_reads (hardware_ticks b n w) = clock_reads w
     /\ absence_count (hardware_ticks b n w) = n).
  { induction n as [|n IH]; intros Hn; [auto|].
    destruct IH as [G [C A]]; [lia|]. rewrite hardware_ticks_S.
    destruct (@idle_tick_counts b (SoftwareScan.check b bbc_ss)
                SoftwareScan.no_input (hardware_ticks b n w) (T _))
      as [G' [C' A']]; [lia|].
    rewrite G', C', A', G, C, A. auto. }
  split; [exact I|].
  destruct (I 100 (le_n _)) as [G [C A]].
  change 101 with (S 100). rewrite hardware_ticks_S.
  destruct (@idle_tick_fires b (SoftwareScan.check b bbc_ss)
              (hardware_ticks b 100 w) (T _) A) as [G' [C' A']].
  rewrite G', A', G. auto.
Qed.

(** ** The shift probe *)

Lemma check_shift_frame (b : board) (w : world) :
  globals (snd (SoftwareScan.check_shift b w)) = globals w
  /\ clock_reads (snd (SoftwareScan.check_shift b w)) = clock_reads w
  /\ switch (snd (SoftwareScan.check_shift b w)) = switch w
  /\ absence_count (snd (SoftwareScan.check_shift b w)) = absence_count w.
Proof. repeat split. Qed.

Lemma check_shift_single_contact (b : board) (w : world) (row column : nat) :
  row < 8 -> column < 16 -> only_closed b row column ->
  fst (SoftwareScan.check_shift b w) = Nat.eqb row 0 && Nat.eqb column 0.
Proof.
  intros Hr Hc Hb. unfold SoftwareScan.check_shift. cbn [fst].
  rewrite (only_closed_value Hb).
  cases_below row; cases_below column; vm_compute; reflexivity.
Qed.

(** X12.  [check_shift] lowers the scan enable and all seven select lines,
    pulses the strobe once and raises the scan enable again; it touches
    neither keyboard nor processor nor clock.  With one switch of the
    matrix closed it returns true exactly when that switch is the one of
    row 0, column 0, where the table has SHIFT. *)
Theorem check_shift_probes_row0_column0
    (b : board) (w : world) (row column : nat) :
  row < 8 -> column < 16 -> only_closed b row column ->
  let r := SoftwareScan.check_shift b w in
  fst r = Nat.eqb row 0 && Nat.eqb column 0
  /\ keys 0 0 = Some (Single (Code Keycode.SHIFT))
  /\ Pins.written (pins (snd r)) =
       Pins.written (pins w) ++
         [(GP2, false);
          (GP9, false); (GP8, false); (GP7, false); (GP6, false);
          (GP5, false); (GP4, false); (GP3, false);
          (GP1, false); (GP1, true); (GP2, true)]
  /\ globals (snd r) = globals w
  /\ clock_reads (snd r) = clock_reads w.
Proof.
  intros Hr Hc Hb r. split; [now apply check_shift_single_contact|].
  split; [reflexivity | split; [|split; reflexivity]].
  unfold r, SoftwareScan.check_shift. simpl. now rewrite <- !app_assoc.
Qed.

(** ** The break button with SHIFT *)

(** X13.  While its pin reads high the break button does nothing to
    keyboard, processor or pins.  When the pin reads low, BACKSPACE is
    passed to [input] with the result of the shift probe: with the SHIFT
    switch closed the line "SHIFT + BREAK" is printed, with another switch
    closed nothing is printed, and in both cases BACKSPACE, if it is not
    pending, is pressed at the sink. *)
Theorem break_button_with_shift (b : board) (w : world) (row column : nat) :
  row < 8 -> column < 16 -> only_closed b row column ->
  let w' := BreakButtonProcessor.check b w in
  let shift := Nat.eqb row 0 && Nat.eqb column 0 in
  if value b BreakButtonProcessor.input (Pins.level (pins w))
  then globals w' = globals w /\ pins w' = pins w
  else globals w' =
         input (Single (Code Keycode.BACKSPACE)) shift
               (monotonic b (S (clock_reads w))) (globals w)
       /\ stdout (globals w') =
            stdout (globals w) ++ (if shift then [SHIFT_BREAK] else [])
       /\ (pending (Code Keycode.BACKSPACE) (globals w) = false ->
           HIDKeyboard.sent (bbc_keyboard (globals w')) =
             HIDKeyboard.sent (bbc_keyboard (globals w))
               ++ [Press Keycode.BACKSPACE]).
Proof.
  intros Hr Hc Hb w' shift.
  destruct (break_button_reads_raw_pin b w (switch w)) as [_ G]. fold w' in G.
  unfold w', BreakButtonProcessor.check, BreakButtonProcessor.switch_update,
    tripped in *.
  cbn [time_monotonic with_switch pins globals clock_reads] in *.
  destruct (value b BreakButtonProcessor.input (Pins.level (pins w))).
  - split; [exact G | reflexivity].
  - rewrite (check_shift_single_contact w Hr Hc Hb) in G. fold shift in G.
    split; [exact G|]. rewrite G.
    unfold input, pending. simpl.
    destruct (Dict.contains (Code Keycode.BACKSPACE)
                (queue (input_processor (globals w)))) eqn:E;
      destruct shift; simpl; rewrite ?app_nil_r; (split; [reflexivity|]);
      intros; try discriminate; reflexivity.
Qed.

(** ** Outputs and LEDs *)

Lemma pin_eqb_eq (p q : pin) : pin_eqb p q = true <-> p = q.
Proof.
  destruct p, q; split; intros H; try reflexivity;
    try (vm_compute in H); discriminate H.
Qed.

Lemma pin_eqb_refl (p : pin) : pin_eqb p p = true.
Proof. now apply pin_eqb_eq. Qed.

(** X14.  [Output.set] drives the pin to the value asked for, inverted for
    a reversed output, and no other pin; two calls of [toggle] bring every
    level back; and [LED.set_off] leaves the internal LED pin low and the
    three case LED pins, which are reversed, high, whatever the levels
    were. *)
Theorem outputs_respect_polarity (o : Output.t) (v : bool) (ps : Pins.t) :
  Pins.level (Output.set o v ps) (Output.output o) = xorb v (Output.reverse o)
  /\ (forall p, p <> Output.output o ->
                Pins.level (Output.set o v ps) p = Pins.level ps p)
  /\ (forall p, Pins.level (Output.toggle o (Output.toggle o ps)) p
                = Pins.level ps p)
  /\ (Pins.level (LED_set_off ps) GP25 = false
      /\ Pins.level (LED_set_off ps) GP15 = true
      /\ Pins.level (LED_set_off ps) GP14 = true
      /\ Pins.level (LED_set_off ps) GP13 = true
      /\ forall p, p <> GP25 -> p <> GP15 -> p <> GP14 -> p <> GP13 ->
                   Pins.level (LED_set_off ps) p = Pins.level ps p).
Proof.
  split; [|split; [|split]].
  - unfold Output.set. destruct v; simpl; rewrite pin_eqb_refl;
      now destruct (Output.reverse o).
  - intros p Hp.
    assert (E : pin_eqb p (Output.output o) = false).
    { destruct (pin_eqb p (Output.output o)) eqn:E; [|reflexivity].
      apply pin_eqb_eq in E. contradiction. }
    unfold Output.set. destruct v; simpl; now rewrite E.
  - intros p. unfold Output.toggle. simpl. rewrite pin_eqb_refl.
    destruct (pin_eqb p (Output.output o)) eqn:E; [|reflexivity].
    apply pin_eqb_eq in E. subst p. apply negb_involutive.
  - repeat split. intros p H1 H2 H3 H4.
    destruct p; try reflexivity; congruence.
Qed.

(** ** The blinking LED *)

Lemma blink_ticks_S (n : nat) (st : BlinkLed.t * Pins.t) :
  blink_ticks (S n) st =
  BlinkLed.try_toggle (fst (blink_ticks n st)) (snd (blink_ticks n st)).
Proof. reflexivity. Qed.

Lemma blink_ticks_state (P : nat) (ps : Pins.t) (n : nat) :
  1 <= P ->
  let st := blink_ticks n ({| BlinkLed.pace := P; BlinkLed.increment := 0 |}, ps) in
  BlinkLed.pace (fst st) = P
  /\ BlinkLed.increment (fst st) = n mod P
  /\ forall p, Pins.level (snd st) p =
               if pin_eqb p GP25
               then xorb (Pins.level ps p) (Nat.odd (n / P))
               else Pins.level ps p.
Proof.
  intros HP. induction n as [|n IH].
  - cbv zeta. change (blink_ticks 0 ?x) with x. cbn [fst snd BlinkLed.pace
      BlinkLed.increment].
    rewrite Nat.Div0.mod_0_l, Nat.Div0.div_0_l.
    split; [reflexivity | split; [reflexivity|]].
    intros p. destruct (pin_eqb p GP25); [|reflexivity].
    now rewrite xorb_false_r.
  - cbv zeta in *. rewrite blink_ticks_S.
    destruct IH as [Hp [Hi Hl]].
    set (st := blink_ticks n _) in *.
    pose proof (Nat.div_mod_eq n P) as D.
    pose proof (Nat.mod_upper_bound n P ltac:(lia)) as U.
    unfold BlinkLed.try_toggle.
    cbn [BlinkLed.pace BlinkLed.increment]. rewrite Hp, Hi.
    destruct (Nat.eqb_spec (n mod P + 1) P) as [E|E].
    + cbn [fold_left BlinkLed.leds fst snd BlinkLed.pace BlinkLed.increment].
      assert (M : S n mod P = 0)
        by (symmetry; apply (Nat.mod_unique (S n) P (S (n / P))); nia).
      assert (Q : S n / P = S (n / P))
        by (symmetry; apply (Nat.div_unique (S n) P (S (n / P)) 0); nia).
      rewrite M, Q.
      split; [reflexivity | split; [reflexivity|]].
      intros p. unfold Output.toggle, LED.internal_led. simpl.
      destruct (pin_eqb p GP25) eqn:Ep; [|rewrite Hl, Ep; reflexivity].
      apply pin_eqb_eq in Ep. subst p. rewrite Hl. simpl.
      rewrite Nat.odd_succ, <- Nat.negb_odd.
      now destruct (Pins.level ps GP25), (Nat.odd (n / P)).
    + cbn [fst snd BlinkLed.pace BlinkLed.increment].
      assert (M : S n mod P = n mod P + 1)
        by (symmetry; apply (Nat.mod_unique (S n) P (n / P)); nia).
      assert (Q : S n / P = n / P)
        by (symmetry; apply (Nat.div_unique (S n) P (n / P) (n mod P + 1)); nia).
      rewrite M, Q. auto.
Qed.

(** X15.  After [n] calls of [try_toggle] on a new [BlinkLed] the counter
    is [n mod 1000] and the internal LED, switched off by the constructor,
    has been toggled [n / 1000] times: it is on exactly when that number is
    odd.  No other pin changes level. *)
Theorem blink_toggles_every_1000th_call (n : nat) (ps : Pins.t) :
  let st := blink_ticks n (BlinkLed.init ps) in
  BlinkLed.increment (fst st) = n mod 1000
  /\ BlinkLed.pace (fst st) = 1000
  /\ Pins.level (snd st) GP25 = Nat.odd (n / 1000)
  /\ forall p, p <> GP25 -> Pins.level (snd st) p = Pins.level ps p.
Proof.
  assert (HP : 1 <= 1000) by lia.
  unfold BlinkLed.init. cbn [fold_left BlinkLed.leds].
  destruct (@blink_ticks_state 1000
              (Output.set_off LED.internal_led ps) n HP) as [Hp [Hi Hl]].
  cbv zeta. split; [exact Hi | split; [exact Hp | split]].
  - rewrite Hl. reflexivity.
  - intros p Hp'. rewrite Hl.
    destruct (pin_eqb p GP25) eqn:E.
    + apply pin_eqb_eq in E. contradiction.
    + unfold Output.set_off, Output.set, LED.internal_led. simpl.
      now rewrite E.
Qed.

(** ** [process] and the key table *)

Lemma keyspec_eqb_eq (a b : keyspec) : keyspec_eqb a b = true <-> a = b.
Proof.
  destruct a as [x|x x'], b as [y|y y']; simpl;
    try (split; [discriminate | congruence]).
  - rewrite key_eqb_eq. split; congruence.
  - rewrite andb_true_iff, !key_eqb_eq. split; [intros [-> ->] | intros [= -> ->]]; auto.
Qed.

Lemma keys_In (row column : nat) (k : keyspec) :
  keys row column = Some k -> In (row, column, k) assignments.
Proof.
  unfold keys. destruct (find _ _) as [[[r c] k']|] eqn:F; [|discriminate].
  intros E. apply find_some in F. destruct F as [Hin Hrc].
  cbn [option_map snd fst] in E, Hrc. injection E as ->.
  apply andb_true_iff in Hrc. destruct Hrc as [Hr Hc].
  apply Nat.eqb_eq in Hr, Hc. subst r c.
  rewrite in_rev. exact Hin.
Qed.

Lemma keys_truthy (row column : nat) (k : keyspec) :
  keys row column = Some k -> SoftwareScan.truthy (Some k) = true.
Proof.
  intros H. apply keys_In in H.
  assert (A : forallb (fun a => SoftwareScan.truthy (Some (snd a))) assignments = true)
    by reflexivity.
  rewrite forallb_forall in A. exact (A _ H).
Qed.

(** X16.  [process] passes the table entry of its coordinate to [input],
    with the shift flag off and one reading of the clock, whenever the
    table has an entry there (no entry is falsy), after printing the line;
    where the table has none, also for a row of 8 or more or a column of
    10 or more, it prints the line and never calls [input] or reads the
    clock.  It drives no pin.  Each of the 72 assignments of the table is
    found at its coordinate. *)
Theorem process_inputs_assigned_keys (b : board) (row column : nat) (w : world) :
  let w' := SoftwareScan.process b row column w in
  match keys row column with
  | Some k =>
      globals w' =
        input k false (monotonic b (clock_reads w))
              (print (RowColumn row column (Some k)) (globals w))
      /\ clock_reads w' = S (clock_reads w)
  | None =>
      globals w' = print (RowColumn row column None) (globals w)
      /\ clock_reads w' = clock_reads w
  end
  /\ pins w' = pins w
  /\ (8 <= row \/ 10 <= column -> keys row column = None)
  /\ (forall r c k, In (r, c, k) assignments -> keys r c = Some k)
  /\ length assignments = 72.
Proof.
  intros w'. split; [|split; [apply pins_process | split; [|split; [|reflexivity]]]].
  - unfold w', SoftwareScan.process.
    destruct (keys row column) as [k|] eqn:K; [|split; reflexivity].
    rewrite (keys_truthy _ _ K). split; reflexivity.
  - intros Hout. destruct (keys row column) as [k|] eqn:K; [|reflexivity].
    apply keys_In in K.
    assert (A : forallb (fun a => (fst (fst a) <? 8) && (snd (fst a) <? 10))
                        assignments = true) by reflexivity.
    rewrite forallb_forall in A. specialize (A _ K). simpl in A.
    apply andb_true_iff in A. destruct A as [A1 A2].
    apply Nat.ltb_lt in A1, A2. lia.
  - intros r c k Hin.
    assert (A : forallb (fun a => match keys (fst (fst a)) (snd (fst a)) with
                                  | Some k' => keyspec_eqb k' (snd a)
                                  | None => false
                                  end) assignments = true) by reflexivity.
    rewrite forallb_forall in A. specialize (A _ Hin). simpl in A.
    destruct (keys r c) as [k'|]; [|discriminate].
    apply keyspec_eqb_eq in A. now subst.
Qed.

(** ** [megahertz_clock] *)

Lemma last_cons_default (A : Type) (l : list A) :
  forall a d d', last (a :: l) d = last (a :: l) d'.
Proof.
  induction l as [|b l IH]; intros a d d'; [reflexivity|].
  change (last (b :: l) d = last (b :: l) d'). apply IH.
Qed.

Lemma megahertz_loop_spaced (St : Type) (func : St -> St * bool)
    (delay_factor : Z) (readings : list Z) :
  forall previous s,
  let r := megahertz_loop func delay_factor readings previous s in
  spaced (100 * delay_factor) previous (snd r)
  /\ (forall t, In t (snd r) -> In t readings)
  /\ snd (fst (fst r)) = last (snd r) previous.
Proof.
  induction readings as [|t readings IH]; intros previous s; cbn [megahertz_loop].
  - simpl. auto.
  - destruct (previous + 100 * delay_factor <? t)%Z eqn:E.
    + apply Z.ltb_lt in E. destruct (func s) as [s' raised].
      destruct raised.
      * simpl. intuition.
      * specialize (IH t s'). cbv zeta in IH.
        destruct (megahertz_loop func delay_factor readings t s')
          as [[[s2 p2] raised2] called] eqn:L.
        simpl in *. destruct IH as [I1 [I2 I3]].
        split; [auto | split].
        -- intros t' [->|H]; auto.
        -- rewrite I3. destruct called as [|c called]; [reflexivity|].
           apply last_cons_default.
    + specialize (IH previous s). cbv zeta in IH.
      destruct IH as [I1 [I2 I3]]. split; [exact I1 | split; [|exact I3]].
      intros t' H. right. auto.
Qed.

(** X17.  [megahertz_clock] calls [func] only at readings of the clock, and
    never twice within [100 * delay_factor] nanoseconds: each call comes at
    a reading more than that after the reading of the call before, the
    first at a reading above [100 * delay_factor]; [previous] is the
    reading of the last call. *)
Theorem megahertz_clock_spaces_calls (St : Type) (func : St -> St * bool)
    (delay_factor : Z) (readings : list Z) (s : St) :
  let r := megahertz_clock func delay_factor readings s in
  spaced (100 * delay_factor) 0 (snd r)
  /\ (forall t, In t (snd r) -> In t readings)
  /\ snd (fst (fst r)) = last (snd r) 0%Z.
Proof. apply megahertz_loop_spaced. Qed.

(** ** The constructor and the tick of [BBCKeyboardInterface] *)

(** X18.  The constructor of the interface cannot fail (no call of
    [int_to_bin] in [SoftwareScan()] raises); it leaves the counters at 0,
    the blink pace at 1000, the internal LED pin low and the three case LED
    pins high, raises the scan enable in hardware mode and leaves it alone
    otherwise, and touches neither keyboard nor processor. *)
Theorem interface_init_succeeds (hardware_scan : bool) (w : world) :
  exists self w',
    BBCKeyboardInterface.init hardware_scan w = Some (self, w')
    /\ BBCKeyboardInterface.hardware_scan self = hardware_scan
    /\ BBCKeyboardInterface.ss self = bbc_ss
    /\ BBCKeyboardInterface.blink self =
         {| BlinkLed.pace := 1000; BlinkLed.increment := 0 |}
    /\ absence_count w' = 0
    /\ globals w' = globals w
    /\ Pins.written (pins w') =
         Pins.written (pins w) ++ [(GP25, false)]
           ++ (if hardware_scan then [(GP2, true)] else [])
           ++ [(GP25, false); (GP15, true); (GP14, true); (GP13, true)]
    /\ Pins.level (pins w') GP2 =
         (if hardware_scan then true else Pins.level (pins w) GP2)
    /\ Pins.level (pins w') GP25 = false
    /\ Pins.level (pins w') GP15 = true
    /\ Pins.level (pins w') GP14 = true
    /\ Pins.level (pins w') GP13 = true.
Proof.
  unfold BBCKeyboardInterface.init. cbn [BlinkLed.init]. rewrite SoftwareScan_init.
  destruct hardware_scan; do 2 eexists; (split; [reflexivity|]);
    repeat split; simpl; now rewrite <- ?app_assoc.
Qed.

Lemma break_idle (b : board) (w : world) :
  value b BreakButtonProcessor.input (Pins.level (pins w)) = true ->
  BreakButtonProcessor.check b w = BreakButtonProcessor.switch_update b w.
Proof.
  intros H. unfold BreakButtonProcessor.check, tripped.
  replace (pins (BreakButtonProcessor.switch_update b w)) with (pins w)
    by reflexivity.
  now rewrite H.
Qed.

Lemma switch_update_frame (b : board) (w : world) :
  globals (BreakButtonProcessor.switch_update b w) = globals w
  /\ absence_count (BreakButtonProcessor.switch_update b w) = absence_count w
  /\ pins (BreakButtonProcessor.switch_update b w) = pins w.
Proof. repeat split. Qed.

(** What a tick does once the scan and the break button are through. *)
Lemma tick_expiry (b : board) (self : BBCKeyboardInterface.t) (w : world) :
  let bl := BlinkLed.try_toggle (BBCKeyboardInterface.blink self) (pins w) in
  let w0 := with_pins (snd bl) w in
  let w1 := if BBCKeyboardInterface.hardware_scan self
            then HardwareScan.check b
                   (SoftwareScan.check b (BBCKeyboardInterface.ss self))
                   SoftwareScan.no_input w0
            else SoftwareScan.check b (BBCKeyboardInterface.ss self) w0 in
  let w2 := BreakButtonProcessor.check b w1 in
  exists o o',
    BBCKeyboardInterface.check b self w = Some o
    /\ check (monotonic b (clock_reads w2)) (globals w2) = Some o'
    /\ globals (snd (tick_result o)) = final o'
    /\ tick_completed o = returned o'
    /\ absence_count (snd (tick_result o)) = absence_count w2
    /\ BBCKeyboardInterface.blink (fst (tick_result o)) = fst bl
    /\ BBCKeyboardInterface.hardware_scan (fst (tick_result o)) =
       BBCKeyboardInterface.hardware_scan self.
Proof.
  intros bl w0 w1 w2. unfold BBCKeyboardInterface.check.
  fold bl. destruct bl as [bl' ps] eqn:B.
  cbn [BBCKeyboardInterface.hardware_scan BBCKeyboardInterface.ss
       BBCKeyboardInterface.blink].
  replace (with_pins ps w) with w0 by (unfold w0; reflexivity).
  fold w1. fold w2. cbn [time_monotonic globals].
  destruct (check_returns (monotonic b (clock_reads w2)) (globals w2))
    as [e' C].
  rewrite C. do 2 eexists. repeat split.
Qed.

(** X19.  An idle tick in hardware mode changes nothing at the sink or in
    the processor: with the interrupt line low, the break line high, the
    absence counter below 100 and no pending key expiring, [check] of the
    interface returns, keyboard and processor and printed lines are as
    before, the absence counter is one more, and the blink counter has
    moved on. *)
Theorem idle_tick_changes_nothing
    (b : board) (self : BBCKeyboardInterface.t) (w : world) :
  BBCKeyboardInterface.hardware_scan self = true ->
  (forall lv, value b HardwareScan.interrupt lv = false) ->
  (forall lv, value b BreakButtonProcessor.input lv = true) ->
  absence_count w < 100 ->
  (forall n k v, In (k, v) (queue (input_processor (globals w))) ->
                 expired (monotonic b n) k v (input_processor (globals w)) = false) ->
  exists o,
    BBCKeyboardInterface.check b self w = Some o
    /\ tick_completed o = true
    /\ globals (snd (tick_result o)) = globals w
    /\ absence_count (snd (tick_result o)) = S (absence_count w)
    /\ BBCKeyboardInterface.blink (fst (tick_result o)) =
         fst (BlinkLed.try_toggle (BBCKeyboardInterface.blink self) (pins w)).
Proof.
  intros Hhw Hint Hbrk Habs Hexp.
  destruct (tick_expiry b self w) as [o [o' [Ho [Ho' [G [T [A [Bl _]]]]]]]].
  rewrite Hhw in *.
  set (w0 := with_pins _ w) in *.
  set (w1 := HardwareScan.check b _ _ w0) in *.
  assert (I : globals w1 = globals w0 /\ clock_reads w1 = clock_reads w0
              /\ absence_count w1 = S (absence_count w0))
    by (apply idle_tick_counts; [apply Hint | exact Habs]).
  destruct I as [I1 [I2 I3]].
  rewrite (break_idle b w1 (Hbrk _)) in *.
  destruct (switch_update_frame b w1) as [S1 [S2 _]].
  rewrite S1, I1 in Ho'. rewrite S2, I3 in A.
  change (globals w0) with (globals w) in *.
  change (absence_count w0) with (absence_count w) in A.
  rewrite check_quiet in Ho' by (intros k v Hin; now apply Hexp).
  injection Ho' as <-.
  exists o. simpl in *. auto.
Qed.

(** ** A tick with one switch closed *)

Lemma sweep_calls_process (b : board) (w : world) (row column : nat) :
  row < 8 -> column < 16 -> only_closed b row column ->
  globals (SoftwareScan.check b bbc_ss w) =
    globals (SoftwareScan.process b row column w)
  /\ clock_reads (SoftwareScan.check b bbc_ss w) =
       clock_reads (SoftwareScan.process b row column w).
Proof.
  intros Hr Hc Hb.
  rewrite (@check_ext b _ bbc_ss w (only_closed_value Hb) (fun n => eq_refl)).
  now apply sweep_single_contact.
Qed.

Lemma process_depends (b : board) (row column : nat) (w1 w2 : world) :
  globals w1 = globals w2 -> clock_reads w1 = clock_reads w2 ->
  globals (SoftwareScan.process b row column w1) =
    globals (SoftwareScan.process b row column w2)
  /\ clock_reads (SoftwareScan.process b row column w1) =
       clock_reads (SoftwareScan.process b row column w2).
Proof.
  intros G C. unfold SoftwareScan.process, input_processor_input, time_monotonic.
  destruct (keys row column) as [k|]; cbn [globals clock_reads with_globals];
    [|now rewrite G, C].
  destruct (SoftwareScan.truthy (Some k)); cbn [globals clock_reads with_globals];
    now rewrite G, C.
Qed.

Lemma hardware_tripped_frame (b : board) (f g : world -> world) (w : world) :
  tripped b HardwareScan.interrupt w = true ->
  let handed := with_pins (Pins.write GP1 false (pins w)) w in
  globals (HardwareScan.check b f g w) = globals (f handed)
  /\ clock_reads (HardwareScan.check b f g w) = clock_reads (f handed)
  /\ absence_count (HardwareScan.check b f g w) = 0.
Proof.
  intros T. unfold HardwareScan.check. rewrite T. repeat split.
Qed.

(** X20.  In a tick the scan comes before the expiry check.  With one
    switch of the matrix closed, the break line high and, in hardware mode,
    the interrupt line high, [check] of the interface ends as
    [input_processor.check()] ends when called, at a later reading of the
    clock, on what [process] made of that switch: the key observed in a
    tick is in the queue before that tick looks for expired keys.  In
    hardware mode the absence counter is 0 afterwards. *)
Theorem tick_scans_before_expiry
    (b : board) (self : BBCKeyboardInterface.t) (w : world) (row column : nat) :
  row < 8 -> column < 16 -> only_closed b row column ->
  BBCKeyboardInterface.ss self = bbc_ss ->
  (forall lv, value b BreakButtonProcessor.input lv = true) ->
  (BBCKeyboardInterface.hardware_scan self = true ->
   forall lv, value b HardwareScan.interrupt lv = true) ->
  let scanned := SoftwareScan.process b row column w in
  exists o o' n,
    BBCKeyboardInterface.check b self w = Some o
    /\ clock_reads scanned <= n
    /\ check (monotonic b n) (globals scanned) = Some o'
    /\ globals (snd (tick_result o)) = final o'
    /\ tick_completed o = returned o'
    /\ (BBCKeyboardInterface.hardware_scan self = true ->
        absence_count (snd (tick_result o)) = 0).
Proof.
  intros Hr Hc Hb Hss Hbrk Hint scanned.
  destruct (tick_expiry b self w) as [o [o' [Ho [Ho' [G [T [A _]]]]]]].
  rewrite Hss in *.
  set (w0 := with_pins _ w) in *.
  set (w1 := if BBCKeyboardInterface.hardware_scan self then _ else _) in *.
  assert (S1 : globals w1 = globals scanned
               /\ clock_reads w1 = clock_reads scanned
               /\ (BBCKeyboardInterface.hardware_scan self = true ->
                   absence_count w1 = 0)).
  { unfold w1. destruct (BBCKeyboardInterface.hardware_scan self).
    - destruct (@hardware_tripped_frame b (SoftwareScan.check b bbc_ss)
                  SoftwareScan.no_input w0 (Hint eq_refl _)) as [F1 [F2 F3]].
      rewrite F1, F2.
      destruct (@sweep_calls_process b
                  (with_pins (Pins.write GP1 false (pins w0)) w0) row column
                  Hr Hc Hb) as [-> ->].
      split; [|split; [|auto]]; now apply process_depends.
    - destruct (@sweep_calls_process b w0 row column Hr Hc Hb) as [-> ->].
      split; [|split; [|discriminate]]; now apply process_depends. }
  destruct S1 as [G1 [C1 A1]].
  rewrite (break_idle b w1 (Hbrk _)) in *.
  destruct (switch_update_frame b w1) as [U1 [U2 _]].
  rewrite U1, G1 in Ho'. rewrite U2 in A.
  exists o, o', (clock_reads (BreakButtonProcessor.switch_update b w1)).
  split; [exact Ho | split; [|split; [exact Ho' | split; [exact G | split;
    [exact T|]]]]].
  - change (clock_reads (BreakButtonProcessor.switch_update b w1))
      with (S (clock_reads w1)). rewrite C1. lia.
  - intros H. rewrite A. auto.
Qed.

End Properties.

(** * Evaluations

    The statements above at particular inputs, computed in binary64. *)

#[local] Existing Instance binary64.

(** The table entry for the 6 key, observed after SHIFT went down. *)
Lemma escape_sequence_of_alternate_witness :
  let e := input (Single (Code Keycode.SHIFT)) false (float_of_Q 0%Q) fresh in
  HIDKeyboard.shift_down (bbc_keyboard e) = true /\
  pending (Shifted Keycode.SEVEN) e = false /\
  HIDKeyboard.sent
    (bbc_keyboard
       (input (AltShift (Code Keycode.SIX) (Shifted Keycode.SEVEN)) false
              (float_of_Q (1 # 100)) e)) =
    [Press Keycode.SHIFT;
     Release Keycode.SHIFT; Press Keycode.SHIFT; Press Keycode.SEVEN;
     Release Keycode.SHIFT; Press Keycode.SHIFT].
Proof.
  intros e.
  assert (H1 : HIDKeyboard.shift_down (bbc_keyboard e) = true) by reflexivity.
  assert (H2 : pending (Shifted Keycode.SEVEN) e = false) by reflexivity.
  split; [exact H1 | split; [exact H2 |]].
  exact (proj1 (@escape_sequence_of_alternate _ (Code Keycode.SIX)
                  (Shifted Keycode.SEVEN) false (float_of_Q (1 # 100)) e H1 H2)).
Defined.

(** C2 as stated fails on a fresh environment: the line is printed and BACKSPACE is pressed at the sink
    and made pending. *)
Lemma shift_break_is_forwarded :
  let e' := input (Single (Code Keycode.BACKSPACE)) true (float_of_Q 0%Q) fresh in
  stdout e' = [SHIFT_BREAK] /\
  HIDKeyboard.sent (bbc_keyboard e') = [Press Keycode.BACKSPACE] /\
  HIDKeyboard.sent (bbc_keyboard e') <> HIDKeyboard.sent (bbc_keyboard fresh) /\
  observed_at (Code Keycode.BACKSPACE) e' = Some (float_of_Q 0%Q).
Proof.
  repeat split. discriminate.
Qed.

(** The A key observed twice, 20 ms apart. *)
Lemma at_most_one_pending_witness :
  let e := input (Single (Code Keycode.A)) false (float_of_Q 0%Q) fresh in
  reachable e /\
  queue (input_processor (input (Single (Code Keycode.A)) false (float_of_Q (2 # 100)) e))
    = [(Code Keycode.A, (float_of_Q 0%Q))].
Proof.
  intros e.
  assert (R : reachable e) by (apply reachable_input; apply reachable_init).
  split; [exact R|].
  exact (proj1 (proj1 (proj2 (at_most_one_pending R))
                  (Single (Code Keycode.A)) false (float_of_Q (2 # 100)) eq_refl)).
Defined.

(** C3 as stated fails at the boundary of the dwell: A observed at time 0,
    nothing else known, and [check] called at 0.15 exactly.  The dwell,
    0.15, has elapsed in the sense of [<=], yet A stays pending and the
    call changes nothing.  And what is compared is the rounded sum: A
    observed at 0.25 and checked at 0.4 has waited more than the dwell, as
    the subtraction rounds, and stays pending too. *)
Lemma dwell_boundary_not_expired :
  let e := input (Single (Code Keycode.A)) false (float_of_Q 0%Q) fresh in
  let now := float_of_Q (15 # 100) in
  let e2 := input (Single (Code Keycode.A)) false (float_of_Q (25 # 100)) fresh in
  let now2 := float_of_Q (4 # 10) in
  (PrimFloat.leb (dwell (Code Keycode.A) (input_processor e))
                 (fsub now (float_of_Q 0%Q)) = true
   /\ check_body now (Code Keycode.A) (float_of_Q 0%Q) e = e
   /\ pending (Code Keycode.A)
        (check_body now (Code Keycode.A) (float_of_Q 0%Q) e) = true
   /\ check now e = Some (Returned e))
  /\ (PrimFloat.ltb (dwell (Code Keycode.A) (input_processor e2))
                    (fsub now2 (float_of_Q (25 # 100))) = true
      /\ check now2 e2 = Some (Returned e2)).
Proof. repeat split. Qed.

(** Five on three lines. *)
Lemma int_to_bin_big_endian_witness :
  1 <= 3 /\ (0 <= 5 < 2 ^ Z.of_nat 3)%Z /\
  exists bits, int_to_bin 5 3 = Some bits /\ length bits = 3
               /\ big_endian bits = 5%Z
               /\ forall i, i < 3 ->
                    nth i bits false = Z.testbit 5 (Z.of_nat (3 - 1 - i)).
Proof.
  assert (H1 : 1 <= 3) by lia.
  assert (H2 : (0 <= 5 < 2 ^ Z.of_nat 3)%Z) by (simpl; lia).
  split; [exact H1 | split; [exact H2|]].
  exact (proj1 (@int_to_bin_big_endian _ 5 3 H1 H2)).
Defined.


(** Only the P switch closed, from power-on: P is pressed at the sink. *)
Lemma sweep_coverage_witness :
  let b := single_contact (int_to_bin 3 3) (int_to_bin 7 4)
                          (fun _ _ => false) (fun _ => float_of_Q 0%Q) in
  3 < 8 /\ 7 < 16 /\ only_closed b 3 7 /\
  HIDKeyboard.sent (bbc_keyboard (globals (SoftwareScan.check b bbc_ss power_on)))
    = [Press Keycode.P].
Proof.
  intros b.
  assert (H1 : 3 < 8) by lia.
  assert (H2 : 7 < 16) by lia.
  assert (H3 : only_closed b 3 7)
    by exact (single_contact_only_closed 3 7 (fun _ _ => false) (fun _ => float_of_Q 0%Q)).
  split; [exact H1 | split; [exact H2 | split; [exact H3|]]].
  pose proof (@sweep_coverage _ b power_on 3 7 H1 H2 H3) as S.
  cbv zeta in S.
  destruct S as [_ [_ [_ [S _]]]]. destruct (S eq_refl eq_refl) as [-> _].
  reflexivity.
Defined.

(** C6 as stated fails: the strobe is still low when the sweep starts: after lowering it the
    next assignments to the pins are the first ones of the sweep (the scan
    enable, then the column lines); the strobe is not raised in between. *)
Lemma strobe_low_when_sweep_starts :
  let w' := HardwareScan.check key_interrupt
              (SoftwareScan.check key_interrupt bbc_ss)
              SoftwareScan.no_input power_on in
  firstn 3 (Pins.written (pins w')) = [(GP1, false); (GP2, false); (GP9, false)]
  /\ ~ (exists rest,
          Pins.written (pins w') = (GP1, false) :: (GP1, true) :: rest).
Proof.
  split; [reflexivity|]. intros [rest H]. vm_compute in H. discriminate.
Qed.

(** From power-on, with the interrupt line high. *)
Lemma strobe_lowered_then_one_sweep_witness :
  tripped key_interrupt HardwareScan.interrupt power_on = true /\
  absence_count
    (HardwareScan.check key_interrupt (SoftwareScan.check key_interrupt bbc_ss)
                        SoftwareScan.no_input power_on) = 0.
Proof.
  assert (T : tripped key_interrupt HardwareScan.interrupt power_on = true)
    by reflexivity.
  split; [exact T|].
  exact (proj1 (proj2 (proj2
    (@strobe_lowered_then_one_sweep _ key_interrupt
       (SoftwareScan.check key_interrupt bbc_ss) SoftwareScan.no_input
       power_on T)))).
Defined.

(** A pending since 0; B observed at 0.05. *)
Lemma input_keeps_pending_witness :
  let e := input (Single (Code Keycode.A)) false (float_of_Q 0%Q) fresh in
  pending (Code Keycode.A) e = true /\
  observed_at (Code Keycode.A)
    (input (Single (Code Keycode.B)) false (float_of_Q (5 # 100)) e) = Some (float_of_Q 0%Q).
Proof.
  intros e.
  assert (H : pending (Code Keycode.A) e = true) by reflexivity.
  split; [exact H|].
  exact (proj1 (proj2 (@input_keeps_pending _ (Single (Code Keycode.B)) false
                         (float_of_Q (5 # 100)) e (Code Keycode.A) H))).
Defined.

(** The A key observed at 0 and checked at 1. *)
Lemma one_press_one_release_witness :
  pending (Code Keycode.A) fresh = false /\
  exists o,
    check (float_of_Q 1%Q) (input (Single (Code Keycode.A)) false (float_of_Q 0%Q) fresh) = Some o
    /\ HIDKeyboard.sent (bbc_keyboard (final o)) =
         [Press Keycode.A; Release Keycode.A].
Proof.
  assert (H1 : pending (Code Keycode.A) fresh = false) by reflexivity.
  split; [exact H1|].
  destruct (@one_press_one_release _ (Single (Code Keycode.A)) false (float_of_Q 0%Q) (float_of_Q 1%Q)
              fresh H1 (fun k' v' (H : In (k', v') []) => match H with end)
              eq_refl)
    as [o [Ho [_ [Hs _]]]].
  exists o. split; [exact Ho | exact Hs].
Defined.

(** SHIFT held, then the key of row 4, column 7. *)
Lemma shifted_key_drops_modifier_witness :
  let e := input (Single (Code Keycode.SHIFT)) false (float_of_Q 0%Q) fresh in
  pending (Shifted Keycode.QUOTE) e = false /\
  HIDKeyboard.shift_down (bbc_keyboard e) = true /\
  HIDKeyboard.shift_down
    (bbc_keyboard (input (Single (Shifted Keycode.QUOTE)) false (float_of_Q 0%Q) e)) = false.
Proof.
  intros e.
  assert (H : pending (Shifted Keycode.QUOTE) e = false) by reflexivity.
  split; [exact H | split; [reflexivity|]].
  exact (proj1 (proj2 (@shifted_key_drops_modifier _ Keycode.QUOTE false (float_of_Q 0%Q) e H))).
Defined.

(** Every input low, from power-on. *)
Lemma no_input_on_101st_idle_tick_witness :
  (forall lv, value break_line_low HardwareScan.interrupt lv = false) /\
  absence_count power_on = 0 /\
  no_input_registered
    (input_processor
       (globals (hardware_ticks break_line_low 101 power_on))) = true.
Proof.
  assert (H1 : forall lv, value break_line_low HardwareScan.interrupt lv = false)
    by reflexivity.
  assert (H2 : absence_count power_on = 0) by reflexivity.
  split; [exact H1 | split; [exact H2|]].
  exact (proj1 (proj2 (proj2
    (@no_input_on_101st_idle_tick _ break_line_low power_on H1 H2)))).
Defined.

(** Only the SHIFT switch closed. *)
Lemma check_shift_probes_row0_column0_witness :
  let b := single_contact (int_to_bin 0 3) (int_to_bin 0 4)
                          (fun _ _ => false) (fun _ => float_of_Q 0%Q) in
  0 < 8 /\ 0 < 16 /\ only_closed b 0 0 /\
  fst (SoftwareScan.check_shift b power_on) = true.
Proof.
  intros b.
  assert (H1 : 0 < 8) by lia.
  assert (H2 : 0 < 16) by lia.
  assert (H3 : only_closed b 0 0)
    by exact (single_contact_only_closed 0 0 (fun _ _ => false) (fun _ => float_of_Q 0%Q)).
  split; [exact H1 | split; [exact H2 | split; [exact H3|]]].
  exact (proj1 (@check_shift_probes_row0_column0 _ b power_on 0 0 H1 H2 H3)).
Defined.

(** Break pressed with the SHIFT switch closed, from power-on. *)
Lemma break_button_with_shift_witness :
  let b := single_contact (int_to_bin 0 3) (int_to_bin 0 4)
                          (fun _ _ => false) (fun _ => float_of_Q 0%Q) in
  0 < 8 /\ 0 < 16 /\ only_closed b 0 0 /\
  stdout (globals (BreakButtonProcessor.check b power_on)) = [SHIFT_BREAK].
Proof.
  intros b.
  assert (H1 : 0 < 8) by lia.
  assert (H2 : 0 < 16) by lia.
  assert (H3 : only_closed b 0 0)
    by exact (single_contact_only_closed 0 0 (fun _ _ => false) (fun _ => float_of_Q 0%Q)).
  split; [exact H1 | split; [exact H2 | split; [exact H3|]]].
  exact (proj1 (proj2 (@break_button_with_shift _ b power_on 0 0 H1 H2 H3))).
Defined.

(** Hardware mode, everything quiet, from power-on. *)
Lemma idle_tick_changes_nothing_witness :
  let self := {| BBCKeyboardInterface.hardware_scan := true;
                 BBCKeyboardInterface.blink :=
                   {| BlinkLed.pace := 1000; BlinkLed.increment := 0 |};
                 BBCKeyboardInterface.ss := bbc_ss |} in
  BBCKeyboardInterface.hardware_scan self = true /\
  (forall lv, value break_line_high HardwareScan.interrupt lv = false) /\
  (forall lv, value break_line_high BreakButtonProcessor.input lv = true) /\
  absence_count power_on < 100 /\
  exists o, BBCKeyboardInterface.check break_line_high self power_on = Some o
            /\ tick_completed o = true
            /\ globals (snd (tick_result o)) = globals power_on.
Proof.
  intros self.
  assert (H1 : BBCKeyboardInterface.hardware_scan self = true) by reflexivity.
  assert (H2 : forall lv, value break_line_high HardwareScan.interrupt lv = false)
    by reflexivity.
  assert (H3 : forall lv, value break_line_high BreakButtonProcessor.input lv = true)
    by reflexivity.
  assert (H4 : absence_count power_on < 100) by (simpl; lia).
  split; [exact H1 | split; [exact H2 | split; [exact H3 | split; [exact H4|]]]].
  destruct (@idle_tick_changes_nothing _ break_line_high self power_on H1 H2 H3 H4
              (fun n k v (H : In (k, v) []) => match H with end))
    as [o [Ho [Hc [Hg _]]]].
  exists o. auto.
Defined.

(** Hardware mode, the P switch closed, from power-on: P is pressed. *)
Lemma tick_scans_before_expiry_witness :
  let b := single_contact (int_to_bin 3 3) (int_to_bin 7 4)
             (fun _ _ => true) (fun _ => float_of_Q 0%Q) in
  let self := {| BBCKeyboardInterface.hardware_scan := true;
                 BBCKeyboardInterface.blink :=
                   {| BlinkLed.pace := 1000; BlinkLed.increment := 0 |};
                 BBCKeyboardInterface.ss := bbc_ss |} in
  3 < 8 /\ 7 < 16 /\ only_closed b 3 7 /\
  BBCKeyboardInterface.ss self = bbc_ss /\
  (forall lv, value b BreakButtonProcessor.input lv = true) /\
  (BBCKeyboardInterface.hardware_scan self = true ->
   forall lv, value b HardwareScan.interrupt lv = true) /\
  exists o, BBCKeyboardInterface.check b self power_on = Some o
            /\ HIDKeyboard.sent (bbc_keyboard (globals (snd (tick_result o))))
               = [Press Keycode.P].
Proof.
  intros b self.
  assert (H1 : 3 < 8) by lia.
  assert (H2 : 7 < 16) by lia.
  assert (H3 : only_closed b 3 7)
    by exact (single_contact_only_closed 3 7 (fun _ _ => true) (fun _ => float_of_Q 0%Q)).
  assert (H4 : BBCKeyboardInterface.ss self = bbc_ss) by reflexivity.
  assert (H5 : forall lv, value b BreakButtonProcessor.input lv = true)
    by reflexivity.
  assert (H6 : BBCKeyboardInterface.hardware_scan self = true ->
               forall lv, value b HardwareScan.interrupt lv = true)
    by reflexivity.
  repeat (split; [assumption|]).
  destruct (@tick_scans_before_expiry _ b self power_on 3 7 H1 H2 H3 H4 H5 H6)
    as [o [o' [n [Ho [_ [Ho' [G _]]]]]]].
  exists o. split; [exact Ho|]. rewrite G.
  vm_compute in Ho'. injection Ho' as <-. reflexivity.
Defined.
